(** * Crypto signal service: technical indicators, scoring and risk sizing

    A shallow embedding of the numerical core of the two copies of the
    signal service (the v2.0 notification service and the v1.0 command-line
    service): the indicator library ([calculateRSI], [calculateEMA],
    [calculateMACD], [calculateBollingerBands], [calculateATR]), the
    synthetic history generator, the scoring rules of [analyzeAsset], the
    position sizer [calculatePositionSize] and the filter / sort / slice
    pipeline of [generateSignals].

    Numbers.  A JavaScript number is modelled by [JS.number]: an exact
    rational in lowest terms, or one of the IEEE-754 special values
    [Infinity], [-Infinity] and [NaN].  Arithmetic on finite values is
    exact (binary64 rounding is not modelled, and the two zeros are
    identified); the special values follow IEEE-754, so that [0/0] is
    [NaN] and [x/0] is infinite.  [undefined] is [None] in an
    [option number] and reads as [NaN] in arithmetic and comparisons.

    Integers.  Lookback periods and array indices are natural numbers;
    [score], which only receives integer increments, and [topN] are
    integers.

    Randomness.  [Math.random()] is an oracle [rnd : nat -> number] giving
    the i-th draw; [generateSignals] threads the number of draws consumed,
    60 per analysed asset.

    Input and output.  The network is outside the model: [generateSignals]
    starts from the fetched universe, an entry being an asset name with
    its context fields already parsed, and from an oracle for the ticker
    of an asset, reduced to the value of [luziaData?.change24h].
    [Array.prototype.sort] is a stable sort. *)

From Stdlib Require Import String.
From Stdlib Require Import QArith Qcanon Lqa ZArith Lia List Bool.
From Stdlib Require Import Sorting.Sorted Sorting.Permutation.
Import ListNotations.

Declare Scope js_scope.
Delimit Scope js_scope with js.

(** ** JavaScript numbers *)

Module JS.

(** A finite value is a rational in lowest terms ([Qc]), so that two
    finite numbers are equal exactly when they have the same value. *)
Inductive number : Type :=
| Num (q : Qc)
| PosInf
| NegInf
| NaN.

(** A decimal literal of the source. *)
Definition lit (q : Q) : number := Num (Q2Qc q).

Definition Qc_eqb (a b : Qc) : bool := Qeq_bool a b.
Definition Qc_ltb (a b : Qc) : bool := negb (Qle_bool b a).

(** Sign of a rational: [Lt] negative, [Eq] zero, [Gt] positive. *)
Definition Qc_sign (q : Qc) : comparison := (Qnum q ?= 0)%Z.

Definition inf_of_sign (c : comparison) : number :=
  match c with
  | Gt => PosInf
  | Lt => NegInf
  | Eq => NaN
  end.

Definition neg (x : number) : number :=
  match x with
  | Num q => Num (- q)
  | PosInf => NegInf
  | NegInf => PosInf
  | NaN => NaN
  end.

Definition add (x y : number) : number :=
  match x, y with
  | NaN, _ | _, NaN => NaN
  | Num a, Num b => Num (a + b)
  | PosInf, NegInf | NegInf, PosInf => NaN
  | PosInf, _ | _, PosInf => PosInf
  | NegInf, _ | _, NegInf => NegInf
  end.

Definition sub (x y : number) : number := add x (neg y).

Definition mul (x y : number) : number :=
  match x, y with
  | NaN, _ | _, NaN => NaN
  | Num a, Num b => Num (a * b)
  | Num a, PosInf | PosInf, Num a => inf_of_sign (Qc_sign a)
  | Num a, NegInf | NegInf, Num a => inf_of_sign (CompOpp (Qc_sign a))
  | PosInf, PosInf | NegInf, NegInf => PosInf
  | PosInf, NegInf | NegInf, PosInf => NegInf
  end.

(** Division: a finite value over zero is infinite with the sign of the
    numerator, and [0/0], [Infinity/Infinity] are [NaN]. *)
Definition div (x y : number) : number :=
  match x, y with
  | NaN, _ | _, NaN => NaN
  | Num a, Num b => if Qc_eqb b 0 then inf_of_sign (Qc_sign a) else Num (a / b)
  | Num _, (PosInf | NegInf) => Num 0
  | PosInf, Num b => if Qc_ltb b 0 then NegInf else PosInf
  | NegInf, Num b => if Qc_ltb b 0 then PosInf else NegInf
  | _, _ => NaN
  end.

(** [x < y]; every comparison with [NaN] is false. *)
Definition lt (x y : number) : bool :=
  match x, y with
  | NaN, _ | _, NaN => false
  | Num a, Num b => Qc_ltb a b
  | _, NegInf => false
  | NegInf, _ => true
  | PosInf, _ => false
  | Num _, PosInf => true
  end.

Definition gt (x y : number) : bool := lt y x.

(** [x === y] on numbers. *)
Definition strict_eq (x y : number) : bool :=
  match x, y with
  | Num a, Num b => Qc_eqb a b
  | PosInf, PosInf | NegInf, NegInf => true
  | _, _ => false
  end.

Definition Math_abs (x : number) : number :=
  match x with
  | Num q => Num (if Qc_ltb q 0 then - q else q)
  | PosInf | NegInf => PosInf
  | NaN => NaN
  end.

Definition Math_max (x y : number) : number :=
  match x, y with
  | NaN, _ | _, NaN => NaN
  | _, _ => if lt x y then y else x
  end.

Definition Math_min (x y : number) : number :=
  match x, y with
  | NaN, _ | _, NaN => NaN
  | _, _ => if lt y x then y else x
  end.

(** [Math.pow(x, n)] for a natural exponent. *)
Fixpoint Math_pow (x : number) (n : nat) : number :=
  match n with
  | O => Num 1
  | S n' => mul x (Math_pow x n')
  end.

(** Square root of a rational: exact on squares of rationals, rounded down
    to 53 fractional bits otherwise. *)
Definition Qsqrt (q : Q) : Q :=
  Z.sqrt (Qnum q * Zpos (Qden q) * 4 ^ 53) # (Qden q * 2 ^ 53).

Definition Math_sqrt (x : number) : number :=
  match x with
  | Num q => if Qc_ltb q 0 then NaN else Num (Q2Qc (Qsqrt q))
  | PosInf => PosInf
  | NegInf | NaN => NaN
  end.

Definition of_nat (n : nat) : number := Num (Q2Qc (inject_Z (Z.of_nat n))).

(** [ToNumber] of a possibly [undefined] value. *)
Definition toNumber (v : option number) : number :=
  match v with
  | Some x => x
  | None => NaN
  end.

(** Truthiness of a number: everything but [0] and [NaN]. *)
Definition truthy (x : number) : bool :=
  match x with
  | Num q => negb (Qc_eqb q 0)
  | PosInf | NegInf => true
  | NaN => false
  end.

(** *** Arrays *)

(** [a.reduce((x, y) => x + y, 0)] *)
Definition sum (a : list number) : number := fold_left add a (Num 0).

(** [a.slice(-n)]: the last [n] elements; [slice(-0)] is [slice(0)]. *)
Definition slice_last {A : Type} (n : nat) (a : list A) : list A :=
  match n with
  | O => a
  | S _ => skipn (length a - n) a
  end.

(** [a[a.length - 1]], [undefined] on the empty array. *)
Definition last_elem {A : Type} (a : list A) : option A :=
  match a with
  | [] => None
  | _ :: _ => nth_error a (length a - 1)
  end.

(** [a.slice(0, e)] for an integer [e]: a negative end counts from the end. *)
Definition slice0 {A : Type} (e : Z) (a : list A) : list A :=
  let len := Z.of_nat (length a) in
  let k := if (e <? 0)%Z then Z.max (len + e) 0 else Z.min e len in
  firstn (Z.to_nat k) a.

End JS.

Import JS.

Arguments lit q%_Q.

Infix "+" := add : js_scope.
Infix "-" := sub : js_scope.
Infix "*" := mul : js_scope.
Infix "/" := div : js_scope.
Infix "<?" := lt : js_scope.
Infix ">?" := gt : js_scope.
Infix "===" := strict_eq (at level 70, no associativity) : js_scope.

Bind Scope js_scope with number.

Local Open Scope js_scope.


(** ** Technical analysis

    The indicator functions below are textually identical in the two
    copies of the service; [calculateBollingerBands] exists in the v1.0
    copy only. *)

(** The loop [for (i = 1; i < prices.length; i++)] of [calculateRSI]:
    [change = prices[i] - prices[i - 1]]. *)
Fixpoint price_changes (prices : list number) : list number :=
  match prices with
  | prev :: (cur :: _) as rest => (cur - prev) :: price_changes rest
  | _ => []
  end.

(** [gains.push(change > 0 ? change : 0)] *)
Definition gain_of (change : number) : number :=
  if change >? lit 0 then change else lit 0.

(** [losses.push(change < 0 ? Math.abs(change) : 0)] *)
Definition loss_of (change : number) : number :=
  if change <? lit 0 then Math_abs change else lit 0.

(** Wilder smoothing step: [(avg * (period - 1) + x) / period]. *)
Definition wilder (period : nat) (avg x : number) : number :=
  (avg * (of_nat period - lit 1) + x) / of_nat period.

(** Body of the smoothing loop of [calculateRSI] on the pair
    [(avgGain, avgLoss)], reading [(gains[i], losses[i])]. *)
Definition rsi_smooth (period : nat) (avg gl : number * number)
  : number * number :=
  (wilder period (fst avg) (fst gl), wilder period (snd avg) (snd gl)).

Definition calculateRSI (prices : list number) (period : nat) : number :=
  if (length prices <? period + 1)%nat then lit 50
  else
    let changes := price_changes prices in
    let gains := map gain_of changes in
    let losses := map loss_of changes in
    let avgGain := sum (slice_last period gains) / of_nat period in
    let avgLoss := sum (slice_last period losses) / of_nat period in
    let '(avgGain, avgLoss) :=
      fold_left (rsi_smooth period)
                (combine (skipn period gains) (skipn period losses))
                (avgGain, avgLoss) in
    if avgLoss === lit 0 then lit 100
    else lit 100 - lit 100 / (lit 1 + avgGain / avgLoss).

(** Default lookback of [calculateRSI] and [calculateATR]. *)
Definition default_period : nat := 14.

(** Body of the loop of [calculateEMA]:
    [ema = (data[i] - ema) * multiplier + ema]. *)
Definition ema_step (multiplier ema x : number) : number :=
  (x - ema) * multiplier + ema.

(** [calculateEMA] returns [data[data.length - 1]] on short data, which is
    [undefined] when [data] is empty. *)
Definition calculateEMA (data : list number) (period : nat) : option number :=
  if (length data <? period)%nat then last_elem data
  else
    let multiplier := lit 2 / (of_nat period + lit 1) in
    let ema := sum (firstn period data) / of_nat period in
    Some (fold_left (ema_step multiplier) (skipn period data) ema).

(** The object returned by [calculateMACD]; the short-series default has no
    [histogram] field. *)
Module MACD.
Record t : Type := mk {
  macd : number;
  signal : number;
  histogram : option number;
  bullish : bool
}.
End MACD.

Definition calculateMACD (prices : list number) : MACD.t :=
  if (length prices <? 35)%nat then MACD.mk (lit 0) (lit 0) None true
  else
    let ema12 := calculateEMA prices 12 in
    let ema26 := calculateEMA prices 26 in
    let macdLine := toNumber ema12 - toNumber ema26 in
    let signalLine := macdLine * lit 0.85 in
    MACD.mk macdLine signalLine (Some (macdLine - signalLine))
            (macdLine >? signalLine).

(** The object returned by [calculateBollingerBands]. *)
Module Bollinger.
Record t : Type := mk {
  upper : number;
  middle : number;
  lower : number;
  position : number
}.
End Bollinger.

Definition calculateBollingerBands (prices : list number) (period : nat)
  (stdMult : number) : Bollinger.t :=
  if (length prices <? period)%nat
  then Bollinger.mk (lit 0) (lit 0) (lit 0) (lit 0)
  else
    let slice := slice_last period prices in
    let sma := sum slice / of_nat period in
    let stdDev :=
      Math_sqrt (sum (map (fun p => Math_pow (p - sma) 2) slice)
                 / of_nat period) in
    let currentPrice := toNumber (last_elem prices) in
    Bollinger.mk (sma + stdDev * stdMult) sma (sma - stdDev * stdMult)
                 ((currentPrice - sma) / (stdDev * lit 2)).

(** Defaults [period = 20, stdMult = 2] of [calculateBollingerBands]. *)
Definition bollinger_period : nat := 20.
Definition bollinger_stdMult : number := lit 2.

(** [a[i]] read as a number. *)
Definition at_index (a : list number) (i : nat) : number :=
  toNumber (nth_error a i).

(** True range at index [i >= 1]. *)
Definition true_range (highs lows closes : list number) (i : nat) : number :=
  Math_max
    (Math_max (at_index highs i - at_index lows i)
              (Math_abs (at_index highs i - at_index closes (i - 1))))
    (Math_abs (at_index lows i - at_index closes (i - 1))).

Definition calculateATR (highs lows closes : list number) (period : nat)
  : number :=
  if (length highs <? period + 1)%nat then lit 0
  else
    let trs := map (true_range highs lows closes) (seq 1 (length highs - 1)) in
    let atr := sum (firstn period trs) / of_nat period in
    fold_left (wilder period) (skipn period trs) atr.

(** ** Synthetic price history *)

(** One advance of the price inside the loop of [generateSimulatedHistory],
    with [r] the value drawn from [Math.random()]. *)
Definition advance_price (currentPrice price r : number) : number :=
  let drift := (currentPrice - price) / lit 60 in
  let noise := (r - lit 0.5) * price * lit 0.02 in
  Math_max (price + drift + noise) (price * lit 0.95).

(** [n] remaining iterations of the loop, [i] the loop counter. *)
Fixpoint history_loop (rnd : nat -> number) (currentPrice : number)
  (n i : nat) (price : number) (history : list number) : list number :=
  match n with
  | O => history
  | S n' =>
      let history := history ++ [price] in
      let price := advance_price currentPrice price (rnd i) in
      let history := history ++ [price] in
      history_loop rnd currentPrice n' (S i) price history
  end.

Definition generateSimulatedHistory (rnd : nat -> number)
  (currentPrice change24h : number) : list number :=
  let price := currentPrice / (lit 1 + change24h / lit 100) in
  history_loop rnd currentPrice 60 0 price [].

(** ** Signals *)

Inductive Bias : Type := BULLISH | BEARISH | NEUTRAL.

(** The object [{ funding, fmScore, markPx, momentum, volume }] built by
    [generateSignals] for [analyzeAsset]. *)
Module HyperData.
Record t : Type := mk {
  funding : number;
  fmScore : number;
  markPx : number;
  momentum : number;
  volume : number
}.
End HyperData.

(** An entry of [assetCtxs], its string fields already read by
    [parseFloat(field || '0')]. *)
Module AssetCtx.
Record t : Type := mk {
  funding : number;
  dayNtlVlm : number;
  prevDayPx : number;
  markPx : number
}.
End AssetCtx.

(** The object returned by [analyzeAsset].  [score] only ever receives
    integer increments and is an integer; [bb] is absent ([None]) in the
    v2.0 copy. *)
Record analysis : Type := mkAnalysis {
  asset : string;
  score : Z;
  signals : list string;
  bias : Bias;
  price : number;
  rsi : number;
  macd : MACD.t;
  bb : option Bollinger.t;
  atr : number;
  atrPercent : number;
  ema9 : option number;
  ema21 : option number;
  ema50 : option number;
  change24h : number;
  funding : number;
  volume : number;
  fmScore : number
}.

Module TakeProfit.
Record t : Type := mk {
  price : number;
  rr : number
}.
End TakeProfit.

(** The object returned by [calculatePositionSize]. *)
Record risk_plan : Type := mkRiskPlan {
  positionSize : number;
  leverageToUse : number;
  stopLossPrice : number;
  stopDistance : number;
  riskAmount : number;
  takeProfit1 : TakeProfit.t;
  takeProfit2 : TakeProfit.t;
  takeProfit3 : TakeProfit.t
}.

Definition Bias_eqb (a b : Bias) : bool :=
  match a, b with
  | BULLISH, BULLISH | BEARISH, BEARISH | NEUTRAL, NEUTRAL => true
  | _, _ => false
  end.

(** [luziaData?.change24h || hyperData.momentum], with [luziaData] given
    by the value of [luziaData?.change24h] ([None] when undefined). *)
Definition change24h_of (luziaData : option number) (h : HyperData.t)
  : number :=
  match luziaData with
  | Some c => if truthy c then c else HyperData.momentum h
  | None => HyperData.momentum h
  end.

(** The rule groups shared by both copies of [analyzeAsset]; each maps the
    running [(score, signals, bias)] or [(score, signals)]. *)

Definition macd_rule (macd : MACD.t) (st : Z * list string)
  : Z * list string :=
  let '(score, signals) := st in
  if MACD.bullish macd && (toNumber (MACD.histogram macd) >? lit 0)
  then ((score + 20)%Z, signals ++ ["MACD Bullish"%string])
  else if MACD.bullish macd
  then ((score + 10)%Z, signals ++ ["MACD Above Signal"%string])
  else (score, signals).

Definition ema_rule (price : number) (ema9 ema21 ema50 : option number)
  (st : Z * list string * Bias) : Z * list string * Bias :=
  let '(score, signals, bias) := st in
  let aboveEMA :=
    length (filter (fun e => price >? toNumber e) [ema9; ema21; ema50]) in
  if (aboveEMA =? 3)%nat
  then ((score + 20)%Z, signals ++ ["Strong Uptrend"%string], BULLISH)
  else if (aboveEMA =? 2)%nat
  then ((score + 10)%Z, signals ++ ["Moderate Uptrend"%string], BULLISH)
  else if (aboveEMA =? 0)%nat
  then ((score - 20)%Z, signals, BEARISH)
  else (score, signals, bias).

Definition momentum_rule (change24h : number) (st : Z * list string)
  : Z * list string :=
  let '(score, signals) := st in
  if change24h >? lit 5
  then ((score + 10)%Z, signals ++ ["Strong Momentum"%string])
  else if change24h <? lit (-5)
  then ((score - 10)%Z, signals ++ ["Weak Momentum"%string])
  else (score, signals).

Definition volume_score (volume : number) : Z :=
  if volume >? lit 50000000 then 15%Z
  else if volume >? lit 20000000 then 10%Z
  else 5%Z.

(** The volume pre-filter of [generateSignals]:
    [if (volume < 5000000) continue]. *)
Definition below_volume_floor (volume : number) : bool :=
  volume <? lit 5000000.

(** [hyperData] as [generateSignals] derives it from an [assetCtxs] entry. *)
Definition hyperData_of (ctx : AssetCtx.t) : HyperData.t :=
  let funding := AssetCtx.funding ctx in
  let volume := AssetCtx.dayNtlVlm ctx * lit 1000000 in
  let prevPrice := AssetCtx.prevDayPx ctx in
  let markPrice := AssetCtx.markPx ctx in
  let momentum :=
    if prevPrice >? lit 0
    then ((markPrice - prevPrice) / prevPrice) * lit 100
    else lit 0 in
  let fmScore :=
    Math_abs funding * Math_abs (momentum / lit 100) * lit 10000 in
  HyperData.mk funding fmScore markPrice momentum volume.

(** [analyses.sort((a, b) => b.score - a.score)]: a stable sort by
    descending score. *)
Fixpoint insert_by_score (x : analysis) (l : list analysis) : list analysis :=
  match l with
  | [] => [x]
  | y :: l' =>
      if (score y - score x <=? 0)%Z then x :: l
      else y :: insert_by_score x l'
  end.

Definition sort_by_score (l : list analysis) : list analysis :=
  fold_right insert_by_score [] l.

(** The scan loop of [generateSignals] for a given [analyzeAsset]: an
    asset below the volume floor is skipped before the ticker is fetched
    and before the asset is analysed.  [draws] counts the values taken
    from [Math.random()] so far: each analysis takes 60. *)
Section Scan.

Variable analyzeAsset :
  (nat -> number) -> string -> HyperData.t -> option number -> analysis.
Variable rnd : nat -> number.
Variable fetchLuziaTicker : string -> option number.

Fixpoint scan_universe (assets : list (string * AssetCtx.t)) (draws : nat)
  (analyses : list analysis) : list analysis * nat :=
  match assets with
  | [] => (analyses, draws)
  | (asset, ctx) :: rest =>
      let h := hyperData_of ctx in
      if below_volume_floor (HyperData.volume h)
      then scan_universe rest draws analyses
      else
        let luziaData := fetchLuziaTicker (asset ++ "-USDT")%string in
        let analysis :=
          analyzeAsset (fun i => rnd (draws + i)%nat) asset h luziaData in
        scan_universe rest (draws + 60)%nat (analyses ++ [analysis])
  end.

Definition top_signals (topN : Z) (assets : list (string * AssetCtx.t))
  : list analysis :=
  let analyses := fst (scan_universe assets 0 []) in
  slice0 topN (sort_by_score analyses).

End Scan.

(** ** The v2.0 service (Telegram notifications) *)

Module Telegram.

Definition DEFAULT_RISK_PER_TRADE : number := lit 0.02.
Definition MAX_LEVERAGE : number := lit 10.
Definition DEFAULT_ACCOUNT_BALANCE : number := lit 10000.

Definition rsi_rule (rsi : number) (st : Z * list string * Bias)
  : Z * list string * Bias :=
  let '(score, signals, bias) := st in
  if rsi <? lit 30
  then ((score + 25)%Z, signals ++ ["RSI Oversold"%string], BULLISH)
  else if rsi >? lit 70
  then ((score - 15)%Z, signals ++ ["RSI Overbought"%string], BEARISH)
  else if rsi >? lit 55
  then ((score + 15)%Z, signals ++ ["RSI Bullish"%string], BULLISH)
  else if rsi <? lit 45
  then ((score - 10)%Z, signals ++ ["RSI Weak"%string], BEARISH)
  else ((score + 5)%Z, signals, bias).

Definition funding_rule (funding : number) (st : Z * list string)
  : Z * list string :=
  let '(score, signals) := st in
  if funding <? lit (-0.05)
  then ((score + 10)%Z, signals ++ ["Negative Funding"%string])
  else if funding >? lit 0.05
  then ((score - 10)%Z, signals ++ ["Positive Funding"%string])
  else (score, signals).

(** The scoring part of [analyzeAsset], from [let score = 0] to the volume
    score, as a function of the indicator values. *)
Definition score_rules (hyperData : HyperData.t)
  (change24h price rsi : number) (macd : MACD.t)
  (ema9 ema21 ema50 : option number) : Z * list string * Bias :=
  let '(score, signals, bias) := rsi_rule rsi (0%Z, [], NEUTRAL) in
  let '(score, signals) := macd_rule macd (score, signals) in
  let '(score, signals, bias) :=
    ema_rule price ema9 ema21 ema50 (score, signals, bias) in
  let '(score, signals) := momentum_rule change24h (score, signals) in
  let '(score, signals) :=
    funding_rule (HyperData.funding hyperData) (score, signals) in
  let volumeScore := volume_score (HyperData.volume hyperData) in
  ((score + volumeScore)%Z, signals, bias).

Definition analyzeAsset (rnd : nat -> number) (asset : string)
  (hyperData : HyperData.t) (luziaData : option number) : analysis :=
  let change24h := change24h_of luziaData hyperData in
  let price := HyperData.markPx hyperData in
  let prices := generateSimulatedHistory rnd price change24h in
  let highs := map (fun p => p * lit 1.02) prices in
  let lows := map (fun p => p * lit 0.98) prices in
  let rsi := calculateRSI prices default_period in
  let macd := calculateMACD prices in
  let ema9 := calculateEMA prices 9 in
  let ema21 := calculateEMA prices 21 in
  let ema50 := calculateEMA prices 50 in
  let atr := calculateATR highs lows prices default_period in
  let '(score, signals, bias) :=
    score_rules hyperData change24h price rsi macd ema9 ema21 ema50 in
  mkAnalysis asset score signals bias price rsi macd None atr
             ((atr / price) * lit 100) ema9 ema21 ema50 change24h
             (HyperData.funding hyperData) (HyperData.volume hyperData)
             (HyperData.fmScore hyperData).

(** [calculatePositionSize(signal, accountBalance = 10000, risk = 0.02)];
    the leverage cap is the global [MAX_LEVERAGE] and the take-profit
    ratios are fixed at 3, 6 and 9. *)
Definition calculatePositionSize (signal : analysis)
  (accountBalance risk : number) : risk_plan :=
  let riskAmount := accountBalance * risk in
  let stopDistance :=
    if atrPercent signal >? lit 0 then atrPercent signal * lit 1.5
    else lit 5 in
  let stopLossPrice :=
    if Bias_eqb (bias signal) BULLISH
    then price signal * (lit 1 - stopDistance / lit 100)
    else price signal * (lit 1 + stopDistance / lit 100) in
  let positionSize := riskAmount / (stopDistance / lit 100) in
  let leverageNeeded := positionSize / accountBalance in
  let leverageToUse := Math_min leverageNeeded MAX_LEVERAGE in
  mkRiskPlan positionSize leverageToUse stopLossPrice stopDistance riskAmount
    (TakeProfit.mk
       (price signal * (lit 1 + stopDistance / lit 100 * lit 3)) (lit 3))
    (TakeProfit.mk
       (price signal * (lit 1 + stopDistance / lit 100 * lit 6)) (lit 6))
    (TakeProfit.mk
       (price signal * (lit 1 + stopDistance / lit 100 * lit 9)) (lit 9)).

(** [generateSignals] up to [topSignals]. *)
Definition generateSignals (rnd : nat -> number)
  (fetchLuziaTicker : string -> option number) (topN : Z)
  (assets : list (string * AssetCtx.t)) : list analysis :=
  top_signals analyzeAsset rnd fetchLuziaTicker topN assets.

(** The signals notified in cron mode, each with its risk plan:
    [topSignals.slice(0, 3)] sized with the default arguments. *)
Definition notifications (topSignals : list analysis)
  : list (analysis * risk_plan) :=
  map (fun signal =>
         (signal,
          calculatePositionSize signal DEFAULT_ACCOUNT_BALANCE
                                DEFAULT_RISK_PER_TRADE))
      (slice0 3 topSignals).

End Telegram.

(** ** The v1.0 service (command line) *)

Module Professional.

Module RiskProfile.
Record t : Type := mk {
  risk : number;
  rr_min : number;
  rr_target : number;
  max_leverage : number
}.
End RiskProfile.

(** [RISK_PROFILES] *)
Definition conservative : RiskProfile.t :=
  RiskProfile.mk (lit 0.01) (lit 2) (lit 3) (lit 3).
Definition moderate : RiskProfile.t :=
  RiskProfile.mk (lit 0.02) (lit 2) (lit 3) (lit 5).
Definition aggressive : RiskProfile.t :=
  RiskProfile.mk (lit 0.03) (lit 1.5) (lit 2) (lit 10).

Definition rsi_rule (rsi : number) (st : Z * list string * Bias)
  : Z * list string * Bias :=
  let '(score, signals, bias) := st in
  if rsi <? lit 30
  then ((score + 25)%Z, signals ++ ["RSI Oversold"%string], BULLISH)
  else if rsi >? lit 70
  then ((score - 15)%Z, signals ++ ["RSI Overbought"%string], BEARISH)
  else if rsi >? lit 55
  then ((score + 15)%Z, signals ++ ["RSI Bullish"%string], BULLISH)
  else if rsi <? lit 45
  then ((score - 10)%Z, signals ++ ["RSI Weak"%string], BEARISH)
  else (score, signals, bias).

Definition bollinger_rule (bb : Bollinger.t) (st : Z * list string)
  : Z * list string :=
  let '(score, signals) := st in
  if Bollinger.position bb <? lit (-1)
  then ((score + 15)%Z, signals ++ ["BB at Lower Band"%string])
  else if Bollinger.position bb >? lit 1
  then ((score - 10)%Z, signals ++ ["BB at Upper Band"%string])
  else (score, signals).

Definition funding_rule (funding : number) (st : Z * list string)
  : Z * list string :=
  let '(score, signals) := st in
  if funding <? lit (-0.05)
  then ((score + 10)%Z, signals ++ ["Negative Funding (Shorts)"%string])
  else if funding >? lit 0.05
  then ((score - 10)%Z, signals ++ ["Positive Funding (Longs)"%string])
  else (score, signals).

(** The scoring part of [analyzeAsset], as a function of the indicator
    values. *)
Definition score_rules (hyperData : HyperData.t)
  (change24h price rsi : number) (macd : MACD.t) (bb : Bollinger.t)
  (ema9 ema21 ema50 : option number) : Z * list string * Bias :=
  let '(score, signals, bias) := rsi_rule rsi (0%Z, [], NEUTRAL) in
  let '(score, signals) := macd_rule macd (score, signals) in
  let '(score, signals, bias) :=
    ema_rule price ema9 ema21 ema50 (score, signals, bias) in
  let '(score, signals) := bollinger_rule bb (score, signals) in
  let '(score, signals) := momentum_rule change24h (score, signals) in
  let '(score, signals) :=
    funding_rule (HyperData.funding hyperData) (score, signals) in
  let volumeScore := volume_score (HyperData.volume hyperData) in
  ((score + volumeScore)%Z, signals, bias).

Definition analyzeAsset (rnd : nat -> number) (asset : string)
  (hyperData : HyperData.t) (luziaData : option number) : analysis :=
  let change24h := change24h_of luziaData hyperData in
  let price := HyperData.markPx hyperData in
  let prices := generateSimulatedHistory rnd price change24h in
  let highs := map (fun p => p * lit 1.02) prices in
  let lows := map (fun p => p * lit 0.98) prices in
  let rsi := calculateRSI prices default_period in
  let macd := calculateMACD prices in
  let bb :=
    calculateBollingerBands prices bollinger_period bollinger_stdMult in
  let atr := calculateATR highs lows prices default_period in
  let ema9 := calculateEMA prices 9 in
  let ema21 := calculateEMA prices 21 in
  let ema50 := calculateEMA prices 50 in
  let '(score, signals, bias) :=
    score_rules hyperData change24h price rsi macd bb ema9 ema21 ema50 in
  mkAnalysis asset score signals bias price rsi macd (Some bb) atr
             ((atr / price) * lit 100) ema9 ema21 ema50 change24h
             (HyperData.funding hyperData) (HyperData.volume hyperData)
             (HyperData.fmScore hyperData).

Definition calculatePositionSize (signal : analysis)
  (accountBalance : number) (riskProfile : RiskProfile.t) : risk_plan :=
  let risk := RiskProfile.risk riskProfile in
  let rr_target := RiskProfile.rr_target riskProfile in
  let max_leverage := RiskProfile.max_leverage riskProfile in
  let riskAmount := accountBalance * risk in
  let stopDistance :=
    if atrPercent signal >? lit 0 then atrPercent signal * lit 1.5
    else lit 5 in
  let stopLossPrice :=
    if Bias_eqb (bias signal) BULLISH
    then price signal * (lit 1 - stopDistance / lit 100)
    else price signal * (lit 1 + stopDistance / lit 100) in
  let positionSize := riskAmount / (stopDistance / lit 100) in
  let leverageNeeded := positionSize / accountBalance in
  let leverageToUse := Math_min leverageNeeded max_leverage in
  let rr1Price :=
    if Bias_eqb (bias signal) BULLISH
    then price signal * (lit 1 + (stopDistance / lit 100) * rr_target)
    else price signal * (lit 1 - (stopDistance / lit 100) * rr_target) in
  let rr2Price :=
    if Bias_eqb (bias signal) BULLISH
    then price signal
         * (lit 1 + (stopDistance / lit 100) * (rr_target * lit 2))
    else price signal
         * (lit 1 - (stopDistance / lit 100) * (rr_target * lit 2)) in
  let rr3Price :=
    if Bias_eqb (bias signal) BULLISH
    then price signal
         * (lit 1 + (stopDistance / lit 100) * (rr_target * lit 3))
    else price signal
         * (lit 1 - (stopDistance / lit 100) * (rr_target * lit 3)) in
  mkRiskPlan positionSize leverageToUse stopLossPrice stopDistance riskAmount
    (TakeProfit.mk rr1Price rr_target)
    (TakeProfit.mk rr2Price (rr_target * lit 2))
    (TakeProfit.mk rr3Price (rr_target * lit 3)).

(** [generateSignals] up to [topSignals]. *)
Definition generateSignals (rnd : nat -> number)
  (fetchLuziaTicker : string -> option number) (topN : Z)
  (assets : list (string * AssetCtx.t)) : list analysis :=
  top_signals analyzeAsset rnd fetchLuziaTicker topN assets.

(** Each reported signal with its risk plan: account balance 10000 and
    the [moderate] profile. *)
Definition report (topSignals : list analysis)
  : list (analysis * risk_plan) :=
  map (fun signal => (signal, calculatePositionSize signal (lit 10000) moderate))
      topSignals.

End Professional.

(** ** Vocabulary of the statements *)

(** Every price is strictly below the next one. *)
Fixpoint strictly_increasing (prices : list number) : bool :=
  match prices with
  | a :: (b :: _) as rest => (a <? b) && strictly_increasing rest
  | _ => true
  end.

(** The price after [k] advances of the loop of [generateSimulatedHistory]
    started at [start]: the [k]-th advance uses the [k]-th draw. *)
Fixpoint price_after (rnd : nat -> number) (currentPrice start : number)
  (k : nat) : number :=
  match k with
  | O => start
  | S k' =>
      advance_price currentPrice (price_after rnd currentPrice start k')
                    (rnd k')
  end.

(** The larger of two rationals. *)
Definition Qc_max (a b : Qc) : Qc := if Qc_ltb a b then b else a.

(** The rational behind a finite number. *)
Definition finite_part (x : number) : Qc :=
  match x with
  | Num q => q
  | _ => Q2Qc 0
  end.

(** A list of labels without "MACD Above Signal". *)
Definition no_above_signal (signals : list string) : Prop :=
  ~ In "MACD Above Signal"%string signals.

(** An asset that passes the volume pre-filter. *)
Definition passes_volume_floor (a : string * AssetCtx.t) : bool :=
  negb (below_volume_floor (HyperData.volume (hyperData_of (snd a)))).

(** Scores in descending order. *)
Definition score_desc (a b : analysis) : Prop := (score b <= score a)%Z.

Section Analyses.

Variable analyzeAsset :
  (nat -> number) -> string -> HyperData.t -> option number -> analysis.
Variable rnd : nat -> number.
Variable fetchLuziaTicker : string -> option number.

(** The analyses of a list of assets, none skipped: the asset at position
    [k] is analysed with the draws [draws + 60 * k] onwards. *)
Fixpoint analyses_of (assets : list (string * AssetCtx.t)) (draws : nat)
  : list analysis :=
  match assets with
  | [] => []
  | (asset, ctx) :: rest =>
      analyzeAsset (fun i => rnd (draws + i)%nat) asset (hyperData_of ctx)
                   (fetchLuziaTicker (asset ++ "-USDT")%string)
      :: analyses_of rest (draws + 60)%nat
  end.

End Analyses.

(** ** Example inputs *)

(** The signal of the sizing example: entry price 100, [atrPercent] 2. *)
Definition example_signal (b : Bias) : analysis :=
  mkAnalysis "BTC" 0 [] b (lit 100) (lit 50)
             (MACD.mk (lit 0) (lit 0) None true) None (lit 2) (lit 2)
             None None None (lit 0) (lit 0) (lit 60000000) (lit 0).

(** The market data of the scoring example: funding -0.08 and volume
    60,000,000. *)
Definition example_hyperData (fmScore markPx momentum : number)
  : HyperData.t :=
  HyperData.mk (lit (-0.08)) fmScore markPx momentum (lit 60000000).

(** A bullish MACD result with histogram 0.5. *)
Definition example_macd (macdLine signalLine : number) : MACD.t :=
  MACD.mk macdLine signalLine (Some (lit 0.5)) true.

(** Two entries of the universe: one above and one below the volume
    floor ([dayNtlVlm] is in millions). *)
Definition example_assets : list (string * AssetCtx.t) :=
  [("BTC"%string, AssetCtx.mk (lit (-0.08)) (lit 60) (lit 95) (lit 100));
   ("DOGE"%string, AssetCtx.mk (lit 0.01) (lit 1) (lit 2) (lit 2))].


(** A finite number that is not negative, and one that is positive. *)
Definition nonneg_finite (x : number) : Prop :=
  exists q : Qc, x = Num q /\ (0 <= q)%Qc.

Definition pos_finite (x : number) : Prop :=
  exists q : Qc, x = Num q /\ (0 < q)%Qc.

(** No price is below the previous one; every price is strictly below the
    previous one. *)
Fixpoint non_decreasing (prices : list number) : bool :=
  match prices with
  | a :: (b :: _) as rest => negb (b <? a) && non_decreasing rest
  | _ => true
  end.

Fixpoint strictly_decreasing (prices : list number) : bool :=
  match prices with
  | a :: (b :: _) as rest => (b <? a) && strictly_decreasing rest
  | _ => true
  end.

(** The number of EMAs that the price is above, [aboveEMA] in
    [analyzeAsset]. *)
Definition above_count (price : number) (ema9 ema21 ema50 : option number)
  : nat :=
  length (filter (fun e => price >? toNumber e) [ema9; ema21; ema50]).

(** * Properties *)

(** ** Numbers *)

Section NumberFacts.

Local Open Scope Qc_scope.

Lemma Qc_ltb_lt (a b : Qc) : Qc_ltb a b = true <-> a < b.
Proof.
  unfold Qc_ltb, Qclt. rewrite negb_true_iff. split; intro H.
  - apply Qnot_le_lt. intro Hle. apply Qle_bool_iff in Hle. congruence.
  - destruct (Qle_bool b a) eqn:E; [|reflexivity].
    apply Qle_bool_iff in E. exfalso. apply (Qlt_not_le _ _ H E).
Qed.

Lemma Qc_ltb_ge (a b : Qc) : Qc_ltb a b = false <-> b <= a.
Proof.
  unfold Qc_ltb, Qcle. rewrite negb_false_iff. apply Qle_bool_iff.
Qed.

Lemma Qc_eqb_eq (a b : Qc) : Qc_eqb a b = true <-> a = b.
Proof.
  unfold Qc_eqb. rewrite Qeq_bool_iff. split; intro H.
  - apply Qc_is_canon, H.
  - subst. reflexivity.
Qed.

Lemma Qc_eqb_neq (a b : Qc) : Qc_eqb a b = false <-> a <> b.
Proof.
  rewrite <- Qc_eqb_eq. destruct (Qc_eqb a b); intuition congruence.
Qed.

Lemma Qc_sign_pos (a : Qc) : Qc_sign a = Gt <-> 0 < a.
Proof.
  unfold Qc_sign, Qclt, Qlt. cbn. rewrite Z.mul_1_r.
  rewrite Z.compare_gt_iff. reflexivity.
Qed.

Lemma Qc_sign_neg (a : Qc) : Qc_sign a = Lt <-> a < 0.
Proof.
  unfold Qc_sign, Qclt, Qlt. cbn. rewrite Z.mul_1_r.
  rewrite Z.compare_lt_iff. reflexivity.
Qed.

Lemma Qc_sign_zero (a : Qc) : Qc_sign a = Eq <-> a = 0.
Proof.
  unfold Qc_sign. rewrite Z.compare_eq_iff. split; intro H.
  - apply Qc_is_canon. unfold Qeq. cbn. rewrite H. reflexivity.
  - subst. reflexivity.
Qed.

End NumberFacts.

(** Turns a goal on canonical rationals into one on [Q] for [lra]. *)
Ltac q_inv_literals :=
  repeat match goal with
  | |- context [Qinv (Zpos ?p # ?d)] =>
      let v := eval cbv in (Qinv (Zpos p # d)) in
      change (Qinv (Zpos p # d)) with v
  | H : context [Qinv (Zpos ?p # ?d)] |- _ =>
      let v := eval cbv in (Qinv (Zpos p # d)) in
      change (Qinv (Zpos p # d)) with v in H
  end.

Ltac qc_to_q :=
  unfold Qclt, Qcle, Qcdiv, Qcminus, Qcplus, Qcmult, Qcopp, Qcinv, Q2Qc in *;
  cbn [this] in *;
  repeat rewrite Qred_correct in *;
  q_inv_literals.

Ltac qc_lra :=
  try apply Qc_is_canon; qc_to_q; lra.

Section NumberOrder.

Local Open Scope Qc_scope.

Lemma lt_irrefl (x : number) : (x <? x)%js = false.
Proof.
  destruct x; cbn; try reflexivity.
  apply Qc_ltb_ge, Qcle_refl.
Qed.

(** [Math.min(x, m)] never exceeds [m], also when it is [NaN]. *)
Lemma Math_min_not_above (x m : number) : (Math_min x m >? m)%js = false.
Proof.
  unfold gt, Math_min.
  destruct x as [a| | |], m as [b| | |]; cbn; try reflexivity;
    try (apply Qc_ltb_ge, Qcle_refl).
  destruct (Qc_ltb b a) eqn:E; cbn.
  - apply Qc_ltb_ge, Qcle_refl.
  - exact E.
Qed.

Lemma of_nat_S (n : nat) :
  Q2Qc (inject_Z (Z.of_nat (S n))) = Q2Qc (inject_Z (Z.of_nat n)) + 1.
Proof.
  apply Qc_is_canon. qc_to_q.
  rewrite Nat2Z.inj_succ. unfold Z.succ. rewrite inject_Z_plus. reflexivity.
Qed.

Lemma of_nat_pos (n : nat) : (0 < n)%nat -> 0 < Q2Qc (inject_Z (Z.of_nat n)).
Proof.
  intros H. qc_to_q. change 0%Q with (inject_Z 0).
  rewrite <- Zlt_Qlt. lia.
Qed.

Lemma of_nat_neq_0 (n : nat) :
  (0 < n)%nat -> Q2Qc (inject_Z (Z.of_nat n)) <> 0.
Proof.
  intros H E. apply of_nat_pos in H. rewrite E in H.
  revert H. apply Qcle_not_lt, Qcle_refl.
Qed.

(** Division of a finite value by a positive count. *)
Lemma div_of_nat (a : Qc) (n : nat) :
  (0 < n)%nat ->
  (Num a / of_nat n)%js = Num (a / Q2Qc (inject_Z (Z.of_nat n))).
Proof.
  intros H. unfold of_nat. cbn.
  destruct (Qc_eqb _ 0) eqn:E; [|reflexivity].
  apply Qc_eqb_eq in E. exfalso. exact (of_nat_neq_0 n H E).
Qed.

End NumberOrder.

(** ** Arrays *)

Section ArrayFacts.

Local Open Scope Qc_scope.

Lemma Forall_skipn {A : Type} (P : A -> Prop) (n : nat) (l : list A) :
  Forall P l -> Forall P (skipn n l).
Proof.
  revert l. induction n as [|n IH]; intros l H; [exact H|].
  destruct l as [|x l]; [constructor|].
  cbn. apply IH. inversion H; assumption.
Qed.

Lemma Forall_slice_last {A : Type} (P : A -> Prop) (n : nat) (l : list A) :
  Forall P l -> Forall P (slice_last n l).
Proof.
  intros H. destruct n; [exact H|]. apply Forall_skipn, H.
Qed.

(** The sum loop started at [acc] over finite values. *)
Lemma fold_add_repeat (c acc : Qc) (n : nat) :
  fold_left add (repeat (Num c) n) (Num acc)
  = Num (acc + Q2Qc (inject_Z (Z.of_nat n)) * c).
Proof.
  revert acc. induction n as [|n IH]; intros acc.
  - cbn. f_equal. change (Q2Qc (inject_Z 0)) with 0. ring.
  - cbn [repeat fold_left add]. rewrite IH, of_nat_S. f_equal. ring.
Qed.

Lemma sum_repeat (c : Qc) (n : nat) :
  sum (repeat (Num c) n) = Num (Q2Qc (inject_Z (Z.of_nat n)) * c).
Proof.
  unfold sum. rewrite fold_add_repeat. f_equal. ring.
Qed.

Lemma sum_zeros (l : list number) :
  Forall (fun x => x = Num 0) l -> sum l = Num 0.
Proof.
  unfold sum. induction 1 as [|x l Hx _ IH]; [reflexivity|].
  subst x. cbn [fold_left add]. rewrite Qcplus_0_l. exact IH.
Qed.

Lemma slice_last_repeat {A : Type} (x : A) (p n : nat) :
  (0 < p <= n)%nat -> slice_last p (repeat x n) = repeat x p.
Proof.
  intros [Hp Hn]. unfold slice_last. destruct p as [|p]; [lia|].
  rewrite repeat_length.
  replace n with ((n - S p) + S p)%nat at 2 by lia.
  rewrite repeat_app, skipn_app, repeat_length, Nat.sub_diag.
  rewrite skipn_all2 by (rewrite repeat_length; lia).
  reflexivity.
Qed.

Lemma firstn_repeat {A : Type} (x : A) (p n : nat) :
  (p <= n)%nat -> firstn p (repeat x n) = repeat x p.
Proof.
  intros Hn. replace n with (p + (n - p))%nat by lia.
  rewrite repeat_app, firstn_app, repeat_length, Nat.sub_diag.
  rewrite firstn_all2 by (rewrite repeat_length; lia).
  cbn. apply app_nil_r.
Qed.

Lemma skipn_repeat {A : Type} (x : A) (p n : nat) :
  skipn p (repeat x n) = repeat x (n - p).
Proof.
  revert p. induction n as [|n IH]; intros p.
  - destruct p; reflexivity.
  - destruct p as [|p]; [reflexivity|]. cbn. apply IH.
Qed.

Lemma last_elem_repeat {A : Type} (x : A) (n : nat) :
  (0 < n)%nat -> last_elem (repeat x n) = Some x.
Proof.
  intros H. destruct n as [|n]; [lia|].
  unfold last_elem. cbn [repeat]. change (x :: repeat x n) with (repeat x (S n)).
  rewrite repeat_length. apply nth_error_repeat. lia.
Qed.

Lemma last_elem_last {A : Type} (l : list A) (d : A) :
  l <> [] -> last_elem l = Some (last l d).
Proof.
  intros H. destruct (exists_last H) as [l' [x ->]].
  rewrite last_last. unfold last_elem.
  destruct (l' ++ [x]) eqn:E; [destruct l'; discriminate|].
  rewrite <- E, length_app. cbn.
  rewrite nth_error_app2 by lia.
  replace (length l' + 1 - 1 - length l')%nat with 0%nat by lia.
  reflexivity.
Qed.

End ArrayFacts.

(** ** RSI *)

Section RSI.

Local Open Scope Qc_scope.

Lemma calculateRSI_short (prices : list number) (period : nat) :
  (length prices < period + 1)%nat -> calculateRSI prices period = lit 50.
Proof.
  intros H. unfold calculateRSI.
  apply Nat.ltb_lt in H. rewrite H. reflexivity.
Qed.

(** A rise is never counted as a loss. *)
Lemma loss_of_rise (a b : number) :
  (a <? b)%js = true -> loss_of (b - a) = Num 0.
Proof.
  intros H. unfold loss_of.
  assert (E : ((b - a) <? lit 0)%js = false).
  { destruct a as [a| | |], b as [b| | |]; cbn in H |- *;
      try discriminate; try reflexivity.
    apply Qc_ltb_lt in H. apply Qc_ltb_ge. qc_lra. }
  rewrite E. reflexivity.
Qed.

Lemma losses_of_rising (prices : list number) :
  strictly_increasing prices = true ->
  Forall (fun x => x = Num 0) (map loss_of (price_changes prices)).
Proof.
  induction prices as [|a rest IH]; intros H; [constructor|].
  destruct rest as [|b rest]; [constructor|].
  cbn [strictly_increasing] in H. apply andb_true_iff in H as [Hab Hrest].
  cbn [price_changes map]. constructor.
  - apply loss_of_rise, Hab.
  - apply IH, Hrest.
Qed.

Lemma wilder_zero (period : nat) :
  (0 < period)%nat -> wilder period (Num 0) (Num 0) = Num 0.
Proof.
  intros H. unfold wilder, lit. unfold of_nat at 1. cbn [sub neg add mul].
  rewrite div_of_nat by exact H. f_equal.
  field. apply of_nat_neq_0, H.
Qed.

Lemma rsi_smooth_no_loss (period : nat) (l : list (number * number))
  (avg : number * number) :
  (0 < period)%nat ->
  Forall (fun gl => snd gl = Num 0) l -> snd avg = Num 0 ->
  snd (fold_left (rsi_smooth period) l avg) = Num 0.
Proof.
  intros Hp Hl. revert avg.
  induction Hl as [|gl l Hgl _ IH]; intros avg Havg; [exact Havg|].
  cbn [fold_left]. apply IH. unfold rsi_smooth. cbn [snd].
  rewrite Hgl, Havg. apply wilder_zero, Hp.
Qed.

(** With no loss at all the average loss is exactly [0] and [calculateRSI]
    returns [100] before the division by the average loss. *)
Lemma calculateRSI_rising (prices : list number) (period : nat) :
  (0 < period)%nat -> (period + 1 <= length prices)%nat ->
  strictly_increasing prices = true ->
  calculateRSI prices period = lit 100.
Proof.
  intros Hp Hlen Hinc. unfold calculateRSI.
  assert (E : (length prices <? period + 1)%nat = false)
    by (apply Nat.ltb_ge; exact Hlen).
  rewrite E. clear E.
  pose proof (losses_of_rising prices Hinc) as Hz.
  set (gains := map gain_of (price_changes prices)) in *.
  set (losses := map loss_of (price_changes prices)) in *.
  assert (H0 : (sum (slice_last period losses) / of_nat period)%js = Num 0).
  { rewrite sum_zeros by (apply Forall_slice_last, Hz).
    rewrite div_of_nat by exact Hp. f_equal.
    field. apply of_nat_neq_0, Hp. }
  rewrite H0.
  assert (Hs : snd (fold_left (rsi_smooth period)
                      (combine (skipn period gains) (skipn period losses))
                      ((sum (slice_last period gains) / of_nat period)%js,
                       Num 0)) = Num 0).
  { apply rsi_smooth_no_loss; [exact Hp| |reflexivity].
    apply Forall_forall. intros [g l] Hin. cbn.
    apply in_combine_r in Hin.
    pose proof (Forall_skipn _ period _ Hz) as Hz'.
    rewrite Forall_forall in Hz'. apply Hz', Hin. }
  destruct (fold_left _ _ _) as [avgGain avgLoss].
  cbn in Hs. subst avgLoss. reflexivity.
Qed.

End RSI.

(** ** EMA *)

Section EMA.

Local Open Scope Qc_scope.

Lemma calculateEMA_short (data : list number) (period : nat) (d : number) :
  data <> [] -> (length data < period)%nat ->
  calculateEMA data period = Some (last data d).
Proof.
  intros Hne H. unfold calculateEMA.
  apply Nat.ltb_lt in H. rewrite H. apply last_elem_last, Hne.
Qed.

Lemma ema_loop_constant (m c : Qc) (n : nat) :
  fold_left (ema_step (Num m)) (repeat (Num c) n) (Num c) = Num c.
Proof.
  induction n as [|n IH]; [reflexivity|].
  cbn [repeat fold_left]. unfold ema_step at 2. cbn [sub neg add mul].
  replace ((c + - c) * m + c) with c by ring. exact IH.
Qed.

Lemma calculateEMA_constant (c : Qc) (n period : nat) :
  (0 < period <= n)%nat ->
  calculateEMA (repeat (Num c) n) period = Some (Num c).
Proof.
  intros [Hp Hn]. unfold calculateEMA. rewrite repeat_length.
  assert (E : (n <? period)%nat = false) by (apply Nat.ltb_ge; exact Hn).
  rewrite E. clear E. f_equal.
  rewrite firstn_repeat by exact Hn.
  rewrite sum_repeat, div_of_nat by exact Hp.
  rewrite skipn_repeat.
  assert (Hm : exists m, (lit 2 / (of_nat period + lit 1))%js = Num m).
  { unfold of_nat, lit. cbn [add div].
    destruct (Qc_eqb _ 0) eqn:E.
    - exfalso. apply Qc_eqb_eq in E.
      pose proof (of_nat_pos period Hp) as Hpos.
      assert (H1 : 0 < Q2Qc (inject_Z (Z.of_nat period)) + Q2Qc 1).
      { revert Hpos. generalize (Q2Qc (inject_Z (Z.of_nat period))).
        intros q Hq. qc_to_q. lra. }
      rewrite E in H1. revert H1. apply Qcle_not_lt, Qcle_refl.
    - eexists. reflexivity. }
  destruct Hm as [m ->].
  replace (Q2Qc (inject_Z (Z.of_nat period)) * c
           / Q2Qc (inject_Z (Z.of_nat period))) with c
    by (field; apply of_nat_neq_0, Hp).
  apply ema_loop_constant.
Qed.

End EMA.

(** ** MACD *)

Section MACDFacts.

Local Open Scope Qc_scope.

Lemma calculateEMA_long (data : list number) (period : nat) :
  (period <= length data)%nat ->
  calculateEMA data period
  = Some (fold_left (ema_step (lit 2 / (of_nat period + lit 1))%js)
                    (skipn period data)
                    (sum (firstn period data) / of_nat period)%js).
Proof.
  intros H. unfold calculateEMA.
  assert (E : (length data <? period)%nat = false)
    by (apply Nat.ltb_ge; exact H).
  rewrite E. reflexivity.
Qed.

Lemma fold_add_finite (qs : list Qc) (acc : Qc) :
  exists s, fold_left add (map Num qs) (Num acc) = Num s.
Proof.
  revert acc. induction qs as [|q qs IH]; intros acc.
  - exists acc. reflexivity.
  - cbn [map fold_left add]. apply IH.
Qed.

Lemma ema_loop_finite (m : Qc) (qs : list Qc) (e : Qc) :
  exists e', fold_left (ema_step (Num m)) (map Num qs) (Num e) = Num e'.
Proof.
  revert e. induction qs as [|q qs IH]; intros e.
  - exists e. reflexivity.
  - cbn [map fold_left]. unfold ema_step at 2. cbn [sub neg add mul].
    apply IH.
Qed.

Lemma ema_multiplier_finite (period : nat) :
  exists m, (lit 2 / (of_nat period + lit 1))%js = Num m.
Proof.
  unfold of_nat, lit. cbn [add div].
  destruct (Qc_eqb _ 0) eqn:E; [|eexists; reflexivity].
  exfalso. apply Qc_eqb_eq in E.
  assert (H : 0 < Q2Qc (inject_Z (Z.of_nat period)) + Q2Qc 1).
  { qc_to_q. change 1%Q with (inject_Z 1). rewrite <- inject_Z_plus.
    change 0%Q with (inject_Z 0). rewrite <- Zlt_Qlt. lia. }
  rewrite E in H. revert H. apply Qcle_not_lt, Qcle_refl.
Qed.

(** On finite prices the EMA over a full window is finite. *)
Lemma calculateEMA_finite (qs : list Qc) (period : nat) :
  (0 < period <= length qs)%nat ->
  exists e, calculateEMA (map Num qs) period = Some (Num e).
Proof.
  intros [Hp Hn].
  rewrite calculateEMA_long by (rewrite length_map; exact Hn).
  destruct (ema_multiplier_finite period) as [m ->].
  rewrite firstn_map, skipn_map. unfold sum.
  destruct (fold_add_finite (firstn period qs) 0) as [s ->].
  rewrite div_of_nat by exact Hp.
  destruct (ema_loop_finite m (skipn period qs)
              (s / Q2Qc (inject_Z (Z.of_nat period)))) as [e ->].
  exists e. reflexivity.
Qed.

Lemma calculateMACD_short (prices : list number) :
  (length prices < 35)%nat ->
  calculateMACD prices = MACD.mk (lit 0) (lit 0) None true.
Proof.
  intros H. unfold calculateMACD.
  apply Nat.ltb_lt in H. rewrite H. reflexivity.
Qed.

Lemma calculateMACD_long (prices : list number) :
  (35 <= length prices)%nat ->
  let macdLine :=
    (toNumber (calculateEMA prices 12) - toNumber (calculateEMA prices 26))%js
  in
  calculateMACD prices
  = MACD.mk macdLine (macdLine * lit 0.85)%js
            (Some (macdLine - macdLine * lit 0.85)%js)
            (macdLine >? macdLine * lit 0.85)%js.
Proof.
  intros H. unfold calculateMACD.
  assert (E : (length prices <? 35)%nat = false)
    by (apply Nat.ltb_ge; exact H).
  rewrite E. reflexivity.
Qed.

(** A finite MACD line is above its [0.85] multiple exactly when it is
    positive, and the histogram is [0.15] times the line. *)
Lemma macd_line_bullish_iff (m : Qc) :
  (Num m >? Num m * lit 0.85)%js = true <-> (Num m >? lit 0)%js = true.
Proof.
  unfold gt, lit. cbn [mul lt].
  rewrite !Qc_ltb_lt. split; intro H; qc_lra.
Qed.

Lemma macd_histogram_scaled (m : Qc) :
  (Num m - Num m * lit 0.85)%js = (Num m * lit 0.15)%js.
Proof.
  unfold lit. cbn [sub neg add mul]. f_equal. qc_lra.
Qed.

Lemma macd_histogram_positive_iff (m : Qc) :
  (Num m - Num m * lit 0.85 >? lit 0)%js = true
  <-> (Num m >? lit 0)%js = true.
Proof.
  unfold gt, lit. cbn [sub neg add mul lt].
  rewrite !Qc_ltb_lt. split; intro H; qc_lra.
Qed.

(** Whatever the MACD line, also infinite or [NaN]: if it is above its
    [0.85] multiple then the histogram is positive. *)
Lemma macd_bullish_histogram (m : number) :
  (m >? m * lit 0.85)%js = true ->
  (m - m * lit 0.85 >? lit 0)%js = true.
Proof.
  destruct m as [q| | |]; try (cbn; discriminate).
  intros H. apply macd_histogram_positive_iff, macd_line_bullish_iff, H.
Qed.

(** The MACD rule never reports "MACD Above Signal" on a result of
    [calculateMACD] for 35 prices or more. *)
Lemma macd_rule_long (prices : list number) (score : Z)
  (signals : list string) :
  (35 <= length prices)%nat ->
  macd_rule (calculateMACD prices) (score, signals)
  = (if MACD.bullish (calculateMACD prices)
     then ((score + 20)%Z, signals ++ ["MACD Bullish"%string])
     else (score, signals)).
Proof.
  intros H. rewrite (calculateMACD_long prices H). cbv zeta.
  set (m := (toNumber (calculateEMA prices 12)
             - toNumber (calculateEMA prices 26))%js).
  unfold macd_rule. cbn [MACD.bullish MACD.histogram toNumber].
  destruct (m >? m * lit 0.85)%js eqn:E; [|reflexivity].
  rewrite (macd_bullish_histogram m E). reflexivity.
Qed.

Lemma macd_rule_short (prices : list number) (score : Z)
  (signals : list string) :
  (length prices < 35)%nat ->
  macd_rule (calculateMACD prices) (score, signals)
  = ((score + 10)%Z, signals ++ ["MACD Above Signal"%string]).
Proof.
  intros H. rewrite (calculateMACD_short prices H). reflexivity.
Qed.

End MACDFacts.

(** ** Bollinger bands *)

Section BollingerFacts.

Local Open Scope Qc_scope.

Lemma Math_sqrt_0 : Math_sqrt (Num 0) = Num 0.
Proof.
  unfold Math_sqrt.
  assert (E : Qc_ltb 0 0 = false) by (apply Qc_ltb_ge, Qcle_refl).
  rewrite E. f_equal. apply Qc_is_canon. vm_compute. reflexivity.
Qed.

Lemma calculateBollingerBands_short (prices : list number) (period : nat)
  (stdMult : number) :
  (length prices < period)%nat ->
  calculateBollingerBands prices period stdMult
  = Bollinger.mk (lit 0) (lit 0) (lit 0) (lit 0).
Proof.
  intros H. unfold calculateBollingerBands.
  apply Nat.ltb_lt in H. rewrite H. reflexivity.
Qed.

(** On a constant window the deviation is [0], the three bands coincide
    and the position is [0/0]. *)
Lemma calculateBollingerBands_constant (c s : Qc) (n period : nat) :
  (0 < period <= n)%nat ->
  calculateBollingerBands (repeat (Num c) n) period (Num s)
  = Bollinger.mk (Num c) (Num c) (Num c) NaN.
Proof.
  intros [Hp Hn]. unfold calculateBollingerBands. rewrite repeat_length.
  assert (E : (n <? period)%nat = false) by (apply Nat.ltb_ge; exact Hn).
  rewrite E. clear E. cbv zeta.
  rewrite slice_last_repeat by (split; assumption).
  rewrite sum_repeat, div_of_nat by exact Hp.
  replace (Q2Qc (inject_Z (Z.of_nat period)) * c
           / Q2Qc (inject_Z (Z.of_nat period))) with c
    by (field; apply of_nat_neq_0, Hp).
  rewrite map_repeat. cbn [Math_pow sub neg add mul].
  replace ((c + - c) * ((c + - c) * 1)) with 0 by ring.
  rewrite sum_repeat, div_of_nat by exact Hp.
  replace (Q2Qc (inject_Z (Z.of_nat period)) * 0
           / Q2Qc (inject_Z (Z.of_nat period))) with 0
    by (field; apply of_nat_neq_0, Hp).
  rewrite Math_sqrt_0, last_elem_repeat by lia.
  unfold lit. cbn [toNumber sub neg add mul].
  replace (c + 0 * s) with c by ring.
  replace (c + - (0 * s)) with c by ring.
  replace (0 * Q2Qc 2) with 0 by ring.
  replace (c + - c) with 0 by ring.
  reflexivity.
Qed.

End BollingerFacts.

(** ** Synthetic history *)

Section HistoryFacts.

Local Open Scope Qc_scope.

Variable rnd : nat -> number.
Variable currentPrice : number.
Variable start : number.

Let P := price_after rnd currentPrice start.

(** The loop run for [n] iterations from counter [i] keeps what was
    already pushed and pushes, per iteration, the price before the advance
    and the price after it. *)
Lemma history_loop_layout (n i : nat) (history : list number) :
  let out := history_loop rnd currentPrice n i (P i) history in
  length out = (length history + 2 * n)%nat
  /\ (forall j, (j < length history)%nat ->
                nth_error out j = nth_error history j)
  /\ (forall k, (k < n)%nat ->
        nth_error out (length history + 2 * k) = Some (P (i + k)%nat)
        /\ nth_error out (length history + 2 * k + 1)
           = Some (P (i + k + 1)%nat)).
Proof.
  revert i history. induction n as [|n IH]; intros i history; cbv zeta.
  - cbn. split; [lia|]. split; [reflexivity|]. intros k Hk. lia.
  - cbn [history_loop].
    change (advance_price currentPrice (P i) (rnd i)) with (P (S i)).
    specialize (IH (S i) ((history ++ [P i]) ++ [P (S i)])).
    cbv zeta in IH. destruct IH as (Hlen & Hpre & Hk).
    rewrite !length_app in Hlen, Hpre, Hk. cbn [length] in Hlen, Hpre, Hk.
    split; [lia|]. split.
    + intros j Hj. rewrite Hpre by lia.
      rewrite <- app_assoc. apply nth_error_app1. exact Hj.
    + intros k Hlt. destruct k as [|k].
      * replace (length history + 2 * 0)%nat with (length history) by lia.
        replace (i + 0)%nat with i by lia.
        rewrite !Hpre by lia. split.
        -- rewrite <- app_assoc, nth_error_app2 by lia.
           rewrite Nat.sub_diag. reflexivity.
        -- rewrite nth_error_app2 by (rewrite length_app; cbn; lia).
           rewrite length_app. cbn [length].
           replace (length history + 1 - (length history + 1))%nat
             with 0%nat by lia.
           replace (i + 1)%nat with (S i) by lia. reflexivity.
      * destruct (Hk k ltac:(lia)) as [H1 H2]. split.
        -- replace (length history + 2 * S k)%nat
             with (length history + 1 + 1 + 2 * k)%nat by lia.
           rewrite H1. f_equal. f_equal. lia.
        -- replace (length history + 2 * S k + 1)%nat
             with (length history + 1 + 1 + 2 * k + 1)%nat by lia.
           rewrite H2. f_equal. f_equal. lia.
Qed.

End HistoryFacts.

Section HistoryLayout.

Lemma generateSimulatedHistory_layout (rnd : nat -> number)
  (currentPrice change24h : number) :
  let start := (currentPrice / (lit 1 + change24h / lit 100))%js in
  let h := generateSimulatedHistory rnd currentPrice change24h in
  length h = 120%nat
  /\ (forall k, (k < 60)%nat ->
        nth_error h (2 * k) = Some (price_after rnd currentPrice start k)
        /\ nth_error h (2 * k + 1)
           = Some (price_after rnd currentPrice start (S k))).
Proof.
  cbv zeta. unfold generateSimulatedHistory.
  pose proof (history_loop_layout rnd currentPrice
                (currentPrice / (lit 1 + change24h / lit 100))%js 60 0 [])
    as H.
  cbv zeta in H. cbn [price_after length Nat.add] in H.
  destruct H as (Hlen & _ & Hk). split; [exact Hlen|].
  intros k Hlt. destruct (Hk k Hlt) as [H1 H2]. split.
  - exact H1.
  - rewrite H2. f_equal. f_equal. lia.
Qed.

End HistoryLayout.

Section HistoryFinite.

Local Open Scope Qc_scope.

Lemma div_lit (a : Qc) (q : Q) :
  ~ (q == 0)%Q -> (Num a / lit q)%js = Num (a / Q2Qc q).
Proof.
  intros H. unfold lit. cbn [div].
  destruct (Qc_eqb (Q2Qc q) 0) eqn:E; [|reflexivity].
  exfalso. apply Qc_eqb_eq in E. apply H.
  apply Q2Qc_eq_iff in E. exact E.
Qed.

Lemma Math_max_finite (a b : Qc) :
  Math_max (Num a) (Num b) = Num (Qc_max a b).
Proof.
  unfold Math_max, Qc_max. cbn [lt]. destruct (Qc_ltb a b); reflexivity.
Qed.

Lemma Qc_max_ge_r (a b : Qc) : b <= Qc_max a b.
Proof.
  unfold Qc_max. destruct (Qc_ltb a b) eqn:E.
  - apply Qcle_refl.
  - apply Qc_ltb_ge, E.
Qed.

(** One advance on finite values: drift towards [currentPrice], the noise
    term, and the floor at 95% of the price before the advance. *)
Lemma advance_price_finite (cp p r : Qc) :
  advance_price (Num cp) (Num p) (Num r)
  = Num (Qc_max (p + (cp - p) / Q2Qc 60
                 + (r - Q2Qc 0.5) * p * Q2Qc 0.02)
                (p * Q2Qc 0.95)).
Proof.
  unfold advance_price. cbv zeta.
  cbn [sub neg add]. rewrite div_lit by discriminate.
  unfold lit. cbn [sub neg add mul].
  apply Math_max_finite.
Qed.

(** The noise term stays within 1% of a positive price. *)
Lemma noise_within_one_percent (p r : Qc) :
  0 < p -> 0 <= r -> r < 1 ->
  - (p * Q2Qc 0.01) <= (r - Q2Qc 0.5) * p * Q2Qc 0.02
  /\ (r - Q2Qc 0.5) * p * Q2Qc 0.02 < p * Q2Qc 0.01.
Proof.
  intros Hp Hr0 Hr1. qc_to_q.
  generalize dependent (this p). generalize dependent (this r).
  intros x Hx0 Hx1 y Hy. split; nra.
Qed.

Lemma start_price_positive (cp ch : Qc) :
  0 < cp -> - Q2Qc 100 < ch ->
  exists p0, (Num cp / (lit 1 + Num ch / lit 100))%js = Num p0
             /\ p0 = cp / (1 + ch / Q2Qc 100) /\ 0 < p0.
Proof.
  intros Hcp Hch. rewrite div_lit by discriminate.
  unfold lit. cbn [add div].
  assert (Hpos : 0 < Q2Qc 1 + ch / Q2Qc 100).
  { qc_to_q. lra. }
  destruct (Qc_eqb _ 0) eqn:E.
  - exfalso. apply Qc_eqb_eq in E. rewrite E in Hpos.
    revert Hpos. apply Qcle_not_lt, Qcle_refl.
  - eexists. split; [reflexivity|]. split; [reflexivity|].
    apply Qc_eqb_neq in E.
    revert Hpos E. generalize (Q2Qc 1 + ch / Q2Qc 100). intros d Hd Hne.
    assert (H : 0 < / d).
    { destruct (Qc_dec 0 (/ d)) as [[H|H]|H]; [exact H| |].
      - exfalso. assert (H1 : d * / d = 1) by (apply Qcmult_inv_r, Hne).
        assert (H2 : d * / d < 0).
        { rewrite Qcmult_comm.
          replace 0 with (0 * d) by ring.
          apply Qcmult_lt_compat_r; assumption. }
        rewrite H1 in H2. revert H2. apply Qcle_not_lt. discriminate.
      - exfalso. assert (H1 : d * / d = 1) by (apply Qcmult_inv_r, Hne).
        rewrite <- H in H1. rewrite Qcmult_0_r in H1. discriminate. }
    unfold Qcdiv. replace 0 with (0 * / d) by ring.
    apply Qcmult_lt_compat_r; assumption.
Qed.

(** On finite draws every price of the loop is finite and positive. *)
Lemma price_after_finite (rnd : nat -> number) (r : nat -> Qc)
  (cp p0 : Qc) :
  0 < p0 ->
  (forall i, rnd i = Num (r i)) ->
  forall k, exists p,
    price_after rnd (Num cp) (Num p0) k = Num p /\ 0 < p.
Proof.
  intros Hp0 Hrnd. induction k as [|k [p [Hk Hp]]].
  - exists p0. split; [reflexivity | exact Hp0].
  - cbn [price_after]. rewrite Hk, Hrnd, advance_price_finite.
    eexists. split; [reflexivity|].
    eapply Qclt_le_trans; [|apply Qc_max_ge_r].
    qc_to_q. lra.
Qed.

End HistoryFinite.

(** ** Risk sizing *)

Section RiskFacts.

Local Open Scope Qc_scope.

(** The stop distance of both sizers is positive: a positive finite or
    infinite [atrPercent] scaled by [1.5], or the fallback [5]. *)
Lemma stop_distance_cases (atrPercent : number) :
  let sd := if (atrPercent >? lit 0)%js then (atrPercent * lit 1.5)%js
            else lit 5 in
  (exists d, sd = Num d /\ 0 < d) \/ sd = PosInf.
Proof.
  cbv zeta. destruct atrPercent as [a| | |]; unfold gt, lit; cbn [lt mul].
  - left. destruct (Qc_ltb (Q2Qc 0) a) eqn:E.
    + apply Qc_ltb_lt in E. eexists. split; [reflexivity|]. qc_lra.
    + eexists. split; reflexivity.
  - right. reflexivity.
  - left. eexists. split; reflexivity.
  - left. eexists. split; reflexivity.
Qed.

Lemma stop_distance_positive (atrPercent : number) :
  ((if (atrPercent >? lit 0)%js then (atrPercent * lit 1.5)%js else lit 5)
   >? lit 0)%js = true.
Proof.
  destruct (stop_distance_cases atrPercent) as [[d [-> Hd]]| ->].
  - unfold gt, lit. cbn [lt]. apply Qc_ltb_lt, Hd.
  - reflexivity.
Qed.

(** Price levels at a positive finite entry price [p], for a stop
    distance [sd] that is positive and finite, or infinite, and a positive
    finite reward ratio [t]. *)
Lemma level_below (p t : Qc) (sd : number) :
  0 < p -> 0 < t ->
  (exists d, sd = Num d /\ 0 < d) \/ sd = PosInf ->
  (Num p * (lit 1 - sd / lit 100 * Num t) <? Num p)%js = true.
Proof.
  intros Hp Ht [[d [-> Hd]]| ->].
  - rewrite div_lit by discriminate. unfold lit. cbn [sub neg add mul lt].
    apply Qc_ltb_lt. qc_to_q.
    assert (0 < this d * this t)%Q by nra. nra.
  - unfold lit. cbn [div].
    replace (Qc_ltb (Q2Qc 100) 0) with false by reflexivity.
    cbn [mul]. apply Qc_sign_pos in Ht. rewrite Ht. cbn [inf_of_sign].
    cbn [sub neg add mul]. apply Qc_sign_pos in Hp. rewrite Hp. reflexivity.
Qed.

Lemma level_above (p t : Qc) (sd : number) :
  0 < p -> 0 < t ->
  (exists d, sd = Num d /\ 0 < d) \/ sd = PosInf ->
  (Num p * (lit 1 + sd / lit 100 * Num t) >? Num p)%js = true.
Proof.
  intros Hp Ht [[d [-> Hd]]| ->].
  - rewrite div_lit by discriminate. unfold gt, lit. cbn [add mul lt].
    apply Qc_ltb_lt. qc_to_q.
    assert (0 < this d * this t)%Q by nra. nra.
  - unfold gt, lit. cbn [div].
    replace (Qc_ltb (Q2Qc 100) 0) with false by reflexivity.
    cbn [mul]. apply Qc_sign_pos in Ht. rewrite Ht. cbn [inf_of_sign].
    cbn [add mul]. apply Qc_sign_pos in Hp. rewrite Hp. reflexivity.
Qed.

(** The stop itself is the level at ratio [1], written without it. *)
Lemma stop_below (p : Qc) (sd : number) :
  0 < p ->
  (exists d, sd = Num d /\ 0 < d) \/ sd = PosInf ->
  (Num p * (lit 1 - sd / lit 100) <? Num p)%js = true.
Proof.
  intros Hp [[d [-> Hd]]| ->].
  - rewrite div_lit by discriminate. unfold lit. cbn [sub neg add mul lt].
    apply Qc_ltb_lt. qc_to_q. nra.
  - unfold lit. cbn [div].
    replace (Qc_ltb (Q2Qc 100) 0) with false by reflexivity.
    cbn [sub neg add mul]. apply Qc_sign_pos in Hp. rewrite Hp. reflexivity.
Qed.

Lemma stop_above (p : Qc) (sd : number) :
  0 < p ->
  (exists d, sd = Num d /\ 0 < d) \/ sd = PosInf ->
  (Num p * (lit 1 + sd / lit 100) >? Num p)%js = true.
Proof.
  intros Hp [[d [-> Hd]]| ->].
  - rewrite div_lit by discriminate. unfold gt, lit. cbn [add mul lt].
    apply Qc_ltb_lt. qc_to_q. nra.
  - unfold gt, lit. cbn [div].
    replace (Qc_ltb (Q2Qc 100) 0) with false by reflexivity.
    cbn [add mul]. apply Qc_sign_pos in Hp. rewrite Hp. reflexivity.
Qed.

Lemma ratio_multiple_positive (t : Qc) (q : Q) :
  0 < t -> (0 < q)%Q ->
  exists t', (Num t * lit q)%js = Num t' /\ 0 < t'.
Proof.
  intros Ht Hq. unfold lit. cbn [mul]. eexists. split; [reflexivity|].
  qc_to_q. nra.
Qed.

End RiskFacts.

Section PlanFacts.

Local Open Scope Qc_scope.

Lemma Bias_eqb_eq (a b : Bias) : Bias_eqb a b = true <-> a = b.
Proof. destruct a, b; cbn; split; congruence. Qed.

(** The v1.0 sizer: a BULLISH plan has its stop below and its three
    targets above the entry price; any other bias has the stop above and
    the three targets below. *)
Lemma Professional_plan_direction (signal : analysis) (accountBalance : number)
  (riskProfile : Professional.RiskProfile.t) (p t : Qc) :
  price signal = Num p -> 0 < p ->
  Professional.RiskProfile.rr_target riskProfile = Num t -> 0 < t ->
  let r := Professional.calculatePositionSize signal accountBalance
                                              riskProfile in
  (bias signal = BULLISH ->
     (stopLossPrice r <? price signal)%js = true
     /\ (TakeProfit.price (takeProfit1 r) >? price signal)%js = true
     /\ (TakeProfit.price (takeProfit2 r) >? price signal)%js = true
     /\ (TakeProfit.price (takeProfit3 r) >? price signal)%js = true)
  /\ (bias signal <> BULLISH ->
     (stopLossPrice r >? price signal)%js = true
     /\ (TakeProfit.price (takeProfit1 r) <? price signal)%js = true
     /\ (TakeProfit.price (takeProfit2 r) <? price signal)%js = true
     /\ (TakeProfit.price (takeProfit3 r) <? price signal)%js = true).
Proof.
  intros Hprice Hp Hrr Ht. cbv zeta.
  unfold Professional.calculatePositionSize.
  cbn [stopLossPrice takeProfit1 takeProfit2 takeProfit3 TakeProfit.price].
  rewrite Hprice, Hrr.
  pose proof (stop_distance_cases (atrPercent signal)) as Hsd.
  cbv zeta in Hsd.
  set (sd := if (atrPercent signal >? lit 0)%js
             then (atrPercent signal * lit 1.5)%js else lit 5) in *.
  destruct (ratio_multiple_positive t 2 Ht ltac:(reflexivity))
    as [t2 [-> Ht2]].
  destruct (ratio_multiple_positive t 3 Ht ltac:(reflexivity))
    as [t3 [-> Ht3]].
  split; intros Hb.
  - rewrite Hb. cbn [Bias_eqb].
    repeat split;
      (apply stop_below || apply level_above); assumption.
  - assert (E : Bias_eqb (bias signal) BULLISH = false).
    { destruct (Bias_eqb _ _) eqn:E; [|reflexivity].
      apply Bias_eqb_eq in E. contradiction. }
    rewrite E.
    repeat split;
      (apply stop_above || apply level_below); assumption.
Qed.

(** The v2.0 sizer: the stop follows the same rule, and the targets of a
    BULLISH plan are above the entry price. *)
Lemma Telegram_plan_direction (signal : analysis)
  (accountBalance risk : number) (p : Qc) :
  price signal = Num p -> 0 < p ->
  let r := Telegram.calculatePositionSize signal accountBalance risk in
  (bias signal = BULLISH ->
     (stopLossPrice r <? price signal)%js = true
     /\ (TakeProfit.price (takeProfit1 r) >? price signal)%js = true
     /\ (TakeProfit.price (takeProfit2 r) >? price signal)%js = true
     /\ (TakeProfit.price (takeProfit3 r) >? price signal)%js = true)
  /\ (bias signal <> BULLISH ->
     (stopLossPrice r >? price signal)%js = true).
Proof.
  intros Hprice Hp. cbv zeta.
  unfold Telegram.calculatePositionSize.
  cbn [stopLossPrice takeProfit1 takeProfit2 takeProfit3 TakeProfit.price].
  rewrite Hprice.
  pose proof (stop_distance_cases (atrPercent signal)) as Hsd.
  cbv zeta in Hsd.
  set (sd := if (atrPercent signal >? lit 0)%js
             then (atrPercent signal * lit 1.5)%js else lit 5) in *.
  assert (H3 : 0 < Q2Qc 3) by reflexivity.
  assert (H6 : 0 < Q2Qc 6) by reflexivity.
  assert (H9 : 0 < Q2Qc 9) by reflexivity.
  split; intros Hb.
  - rewrite Hb. cbn [Bias_eqb].
    repeat split;
      (apply stop_below || apply (level_above p _ sd Hp)); assumption.
  - assert (E : Bias_eqb (bias signal) BULLISH = false).
    { destruct (Bias_eqb _ _) eqn:E; [|reflexivity].
      apply Bias_eqb_eq in E. contradiction. }
    rewrite E. apply stop_above; assumption.
Qed.

(** Sizing formulas and the leverage cap of the v1.0 sizer. *)
Lemma Professional_sizing (signal : analysis) (accountBalance : number)
  (riskProfile : Professional.RiskProfile.t) :
  let r := Professional.calculatePositionSize signal accountBalance
                                              riskProfile in
  let max_leverage := Professional.RiskProfile.max_leverage riskProfile in
  riskAmount r
  = (accountBalance * Professional.RiskProfile.risk riskProfile)%js
  /\ (stopDistance r >? lit 0)%js = true
  /\ positionSize r = (riskAmount r / (stopDistance r / lit 100))%js
  /\ leverageToUse r
     = Math_min (positionSize r / accountBalance)%js max_leverage
  /\ (leverageToUse r >? max_leverage)%js = false.
Proof.
  cbv zeta. unfold Professional.calculatePositionSize.
  cbn [riskAmount stopDistance positionSize leverageToUse].
  repeat split.
  - apply stop_distance_positive.
  - apply Math_min_not_above.
Qed.

(** Sizing formulas and the leverage cap of the v2.0 sizer, whose risk
    fraction is an argument and whose cap is [MAX_LEVERAGE]. *)
Lemma Telegram_sizing (signal : analysis) (accountBalance risk : number) :
  let r := Telegram.calculatePositionSize signal accountBalance risk in
  riskAmount r = (accountBalance * risk)%js
  /\ (stopDistance r >? lit 0)%js = true
  /\ positionSize r = (riskAmount r / (stopDistance r / lit 100))%js
  /\ leverageToUse r
     = Math_min (positionSize r / accountBalance)%js Telegram.MAX_LEVERAGE
  /\ (leverageToUse r >? Telegram.MAX_LEVERAGE)%js = false.
Proof.
  cbv zeta. unfold Telegram.calculatePositionSize.
  cbn [riskAmount stopDistance positionSize leverageToUse].
  repeat split.
  - apply stop_distance_positive.
  - apply Math_min_not_above.
Qed.

End PlanFacts.

(** ** Scoring *)

Section ScoringFacts.

Lemma no_above_signal_push (signals : list string) (label : string) :
  no_above_signal signals -> label <> "MACD Above Signal"%string ->
  no_above_signal (signals ++ [label]).
Proof.
  unfold no_above_signal. intros H Hl Hin.
  apply in_app_or in Hin as [Hin|[Hin|[]]]; [exact (H Hin)|].
  exact (Hl Hin).
Qed.

Ltac label_step :=
  first [ assumption
        | apply no_above_signal_push; [assumption | discriminate] ].

Lemma Telegram_rsi_rule_labels rsi score signals bias :
  no_above_signal signals ->
  no_above_signal (snd (fst (Telegram.rsi_rule rsi (score, signals, bias)))).
Proof.
  intros H. unfold Telegram.rsi_rule.
  repeat (match goal with |- context [if ?b then _ else _] => destruct b end);
    cbn [fst snd]; label_step.
Qed.

Lemma Professional_rsi_rule_labels rsi score signals bias :
  no_above_signal signals ->
  no_above_signal
    (snd (fst (Professional.rsi_rule rsi (score, signals, bias)))).
Proof.
  intros H. unfold Professional.rsi_rule.
  repeat (match goal with |- context [if ?b then _ else _] => destruct b end);
    cbn [fst snd]; label_step.
Qed.

Lemma ema_rule_labels price e9 e21 e50 score signals bias :
  no_above_signal signals ->
  no_above_signal
    (snd (fst (ema_rule price e9 e21 e50 (score, signals, bias)))).
Proof.
  intros H. unfold ema_rule.
  repeat (match goal with
          | |- context [if (?a =? ?b)%nat then _ else _] =>
              destruct (a =? b)%nat
          end);
    cbn [fst snd]; label_step.
Qed.

Lemma momentum_rule_labels change24h score signals :
  no_above_signal signals ->
  no_above_signal (snd (momentum_rule change24h (score, signals))).
Proof.
  intros H. unfold momentum_rule.
  repeat (match goal with |- context [if ?b then _ else _] => destruct b end);
    cbn [fst snd]; label_step.
Qed.

Lemma Telegram_funding_rule_labels funding score signals :
  no_above_signal signals ->
  no_above_signal (snd (Telegram.funding_rule funding (score, signals))).
Proof.
  intros H. unfold Telegram.funding_rule.
  repeat (match goal with |- context [if ?b then _ else _] => destruct b end);
    cbn [fst snd]; label_step.
Qed.

Lemma Professional_funding_rule_labels funding score signals :
  no_above_signal signals ->
  no_above_signal (snd (Professional.funding_rule funding (score, signals))).
Proof.
  intros H. unfold Professional.funding_rule.
  repeat (match goal with |- context [if ?b then _ else _] => destruct b end);
    cbn [fst snd]; label_step.
Qed.

Lemma bollinger_rule_labels bb score signals :
  no_above_signal signals ->
  no_above_signal (snd (Professional.bollinger_rule bb (score, signals))).
Proof.
  intros H. unfold Professional.bollinger_rule.
  repeat (match goal with |- context [if ?b then _ else _] => destruct b end);
    cbn [fst snd]; label_step.
Qed.

Lemma macd_rule_long_labels prices score signals :
  (35 <= length prices)%nat ->
  no_above_signal signals ->
  no_above_signal (snd (macd_rule (calculateMACD prices) (score, signals))).
Proof.
  intros Hlen H. rewrite macd_rule_long by exact Hlen.
  destruct (MACD.bullish _); cbn [snd]; label_step.
Qed.

(** The labels of the v2.0 scoring rules, given those of its MACD rule. *)
Lemma Telegram_score_rules_labels h change24h price rsi macd e9 e21 e50 :
  (forall score signals,
      no_above_signal signals ->
      no_above_signal (snd (macd_rule macd (score, signals)))) ->
  no_above_signal
    (snd (fst (Telegram.score_rules h change24h price rsi macd e9 e21 e50))).
Proof.
  intros Hmacd. unfold Telegram.score_rules.
  pose proof (Telegram_rsi_rule_labels rsi 0%Z [] NEUTRAL
                ltac:(intros [])) as H1.
  destruct (Telegram.rsi_rule rsi _) as [[s1 l1] b1]. cbn [fst snd] in H1.
  pose proof (Hmacd s1 l1 H1) as H2.
  destruct (macd_rule macd _) as [s2 l2]. cbn [snd] in H2.
  pose proof (ema_rule_labels price e9 e21 e50 s2 l2 b1 H2) as H3.
  destruct (ema_rule _ _ _ _ _) as [[s3 l3] b3]. cbn [fst snd] in H3.
  pose proof (momentum_rule_labels change24h s3 l3 H3) as H4.
  destruct (momentum_rule _ _) as [s4 l4]. cbn [snd] in H4.
  pose proof (Telegram_funding_rule_labels (HyperData.funding h) s4 l4 H4)
    as H5.
  destruct (Telegram.funding_rule _ _) as [s5 l5]. cbn [snd] in H5.
  exact H5.
Qed.

Lemma Professional_score_rules_labels
  h change24h price rsi macd bb e9 e21 e50 :
  (forall score signals,
      no_above_signal signals ->
      no_above_signal (snd (macd_rule macd (score, signals)))) ->
  no_above_signal
    (snd (fst (Professional.score_rules h change24h price rsi macd bb
                                        e9 e21 e50))).
Proof.
  intros Hmacd. unfold Professional.score_rules.
  pose proof (Professional_rsi_rule_labels rsi 0%Z [] NEUTRAL
                ltac:(intros [])) as H1.
  destruct (Professional.rsi_rule rsi _) as [[s1 l1] b1].
  cbn [fst snd] in H1.
  pose proof (Hmacd s1 l1 H1) as H2.
  destruct (macd_rule macd _) as [s2 l2]. cbn [snd] in H2.
  pose proof (ema_rule_labels price e9 e21 e50 s2 l2 b1 H2) as H3.
  destruct (ema_rule _ _ _ _ _) as [[s3 l3] b3]. cbn [fst snd] in H3.
  pose proof (bollinger_rule_labels bb s3 l3 H3) as H3'.
  destruct (Professional.bollinger_rule _ _) as [s3' l3']. cbn [snd] in H3'.
  pose proof (momentum_rule_labels change24h s3' l3' H3') as H4.
  destruct (momentum_rule _ _) as [s4 l4]. cbn [snd] in H4.
  pose proof (Professional_funding_rule_labels
                (HyperData.funding h) s4 l4 H4) as H5.
  destruct (Professional.funding_rule _ _) as [s5 l5]. cbn [snd] in H5.
  exact H5.
Qed.

(** [analyzeAsset] scores the indicators of its 120-point history. *)
Lemma Telegram_analyzeAsset_scores rnd asset h luziaData :
  let change24h := change24h_of luziaData h in
  let prices :=
    generateSimulatedHistory rnd (HyperData.markPx h) change24h in
  let a := Telegram.analyzeAsset rnd asset h luziaData in
  (score a, signals a, bias a)
  = Telegram.score_rules h change24h (HyperData.markPx h)
      (calculateRSI prices default_period) (calculateMACD prices)
      (calculateEMA prices 9) (calculateEMA prices 21)
      (calculateEMA prices 50).
Proof.
  cbv zeta. unfold Telegram.analyzeAsset.
  destruct (Telegram.score_rules _ _ _ _ _ _ _ _) as [[s l] b].
  reflexivity.
Qed.

Lemma Professional_analyzeAsset_scores rnd asset h luziaData :
  let change24h := change24h_of luziaData h in
  let prices :=
    generateSimulatedHistory rnd (HyperData.markPx h) change24h in
  let a := Professional.analyzeAsset rnd asset h luziaData in
  (score a, signals a, bias a)
  = Professional.score_rules h change24h (HyperData.markPx h)
      (calculateRSI prices default_period) (calculateMACD prices)
      (calculateBollingerBands prices bollinger_period bollinger_stdMult)
      (calculateEMA prices 9) (calculateEMA prices 21)
      (calculateEMA prices 50).
Proof.
  cbv zeta. unfold Professional.analyzeAsset.
  destruct (Professional.score_rules _ _ _ _ _ _ _ _ _) as [[s l] b].
  reflexivity.
Qed.

Lemma history_length rnd currentPrice change24h :
  length (generateSimulatedHistory rnd currentPrice change24h) = 120%nat.
Proof.
  exact (proj1 (generateSimulatedHistory_layout rnd currentPrice change24h)).
Qed.

Lemma Telegram_analyzeAsset_labels rnd asset h luziaData :
  no_above_signal (signals (Telegram.analyzeAsset rnd asset h luziaData)).
Proof.
  pose proof (Telegram_analyzeAsset_scores rnd asset h luziaData) as E.
  cbv zeta in E.
  replace (signals (Telegram.analyzeAsset rnd asset h luziaData))
    with (snd (fst (score (Telegram.analyzeAsset rnd asset h luziaData),
                    signals (Telegram.analyzeAsset rnd asset h luziaData),
                    bias (Telegram.analyzeAsset rnd asset h luziaData))))
    by reflexivity.
  rewrite E.
  apply Telegram_score_rules_labels. intros score signals H.
  apply macd_rule_long_labels; [|exact H].
  rewrite history_length. lia.
Qed.

Lemma Professional_analyzeAsset_labels rnd asset h luziaData :
  no_above_signal (signals (Professional.analyzeAsset rnd asset h luziaData)).
Proof.
  pose proof (Professional_analyzeAsset_scores rnd asset h luziaData) as E.
  cbv zeta in E.
  replace (signals (Professional.analyzeAsset rnd asset h luziaData))
    with (snd (fst
                 (score (Professional.analyzeAsset rnd asset h luziaData),
                  signals (Professional.analyzeAsset rnd asset h luziaData),
                  bias (Professional.analyzeAsset rnd asset h luziaData))))
    by reflexivity.
  rewrite E.
  apply Professional_score_rules_labels. intros score signals H.
  apply macd_rule_long_labels; [|exact H].
  rewrite history_length. lia.
Qed.

End ScoringFacts.

(** ** Filter, sort and slice *)

Section Pipeline.

Variable analyzeAsset :
  (nat -> number) -> string -> HyperData.t -> option number -> analysis.
Variable rnd : nat -> number.
Variable fetchLuziaTicker : string -> option number.

Let scan := scan_universe analyzeAsset rnd fetchLuziaTicker.
Let analyses_of := analyses_of analyzeAsset rnd fetchLuziaTicker.

Lemma scan_universe_filter (assets : list (string * AssetCtx.t))
  (draws : nat) (analyses : list analysis) :
  scan assets draws analyses
  = scan (filter passes_volume_floor assets) draws analyses.
Proof.
  revert draws analyses.
  induction assets as [|[asset ctx] rest IH]; intros draws analyses;
    [reflexivity|].
  cbn [filter]. unfold passes_volume_floor at 1. cbn [snd].
  unfold scan in *. cbn [scan_universe].
  destruct (below_volume_floor _) eqn:E; cbn [negb].
  - apply IH.
  - cbn [scan_universe]. rewrite E. apply IH.
Qed.

Lemma scan_universe_kept (assets : list (string * AssetCtx.t))
  (draws : nat) (analyses : list analysis) :
  Forall (fun a => passes_volume_floor a = true) assets ->
  scan assets draws analyses
  = (analyses ++ analyses_of assets draws,
     (draws + 60 * length assets)%nat).
Proof.
  intros H. revert draws analyses.
  induction H as [|[asset ctx] rest Hk _ IH]; intros draws analyses.
  - cbn. rewrite app_nil_r. f_equal. lia.
  - unfold scan in *. cbn [scan_universe analyses_of].
    unfold passes_volume_floor in Hk. cbn [snd] in Hk.
    apply negb_true_iff in Hk. rewrite Hk.
    rewrite IH, <- app_assoc. cbn [app length]. f_equal. lia.
Qed.

(** The scan analyses exactly the assets that pass the floor, and draws
    from [Math.random()] for those only. *)
Lemma scan_universe_spec (assets : list (string * AssetCtx.t)) :
  let kept := filter passes_volume_floor assets in
  scan assets 0 [] = (analyses_of kept 0, (60 * length kept)%nat).
Proof.
  cbv zeta. rewrite scan_universe_filter, scan_universe_kept.
  - reflexivity.
  - apply Forall_forall. intros a Ha. apply filter_In in Ha. tauto.
Qed.

Lemma length_analyses_of (assets : list (string * AssetCtx.t)) (draws : nat) :
  length (analyses_of assets draws) = length assets.
Proof.
  revert draws. induction assets as [|[a c] k IH]; intros d; [reflexivity|].
  cbn. f_equal. apply IH.
Qed.

Hypothesis analysis_volume :
  forall r asset h l, volume (analyzeAsset r asset h l) = HyperData.volume h.

Lemma analyses_of_volume (assets : list (string * AssetCtx.t)) (draws : nat) :
  Forall (fun a => passes_volume_floor a = true) assets ->
  Forall (fun a => below_volume_floor (volume a) = false)
         (analyses_of assets draws).
Proof.
  intros H. revert draws.
  induction H as [|[asset ctx] rest Hk _ IH]; intros draws; cbn; constructor.
  - rewrite analysis_volume.
    unfold passes_volume_floor in Hk. cbn [snd] in Hk.
    apply negb_true_iff, Hk.
  - apply IH.
Qed.

End Pipeline.

Section SortFacts.

Lemma insert_by_score_perm (x : analysis) (l : list analysis) :
  Permutation (insert_by_score x l) (x :: l).
Proof.
  induction l as [|y l IH]; [reflexivity|].
  cbn [insert_by_score]. destruct (_ <=? _)%Z; [reflexivity|].
  rewrite IH. apply perm_swap.
Qed.

Lemma sort_by_score_perm (l : list analysis) :
  Permutation (sort_by_score l) l.
Proof.
  induction l as [|x l IH]; [reflexivity|].
  cbn [sort_by_score fold_right]. fold (sort_by_score l).
  rewrite insert_by_score_perm. constructor. exact IH.
Qed.

Lemma insert_by_score_sorted (x : analysis) (l : list analysis) :
  StronglySorted score_desc l ->
  StronglySorted score_desc (insert_by_score x l).
Proof.
  induction 1 as [|y l Hs IH Hy].
  - repeat constructor.
  - cbn [insert_by_score]. destruct (_ <=? _)%Z eqn:E.
    + apply Z.leb_le in E. constructor; [constructor; assumption|].
      constructor; [unfold score_desc; lia|].
      eapply Forall_impl; [|exact Hy].
      unfold score_desc. intros z Hz. lia.
    + apply Z.leb_gt in E. constructor; [exact IH|].
      rewrite (insert_by_score_perm x l).
      constructor; [unfold score_desc; lia | exact Hy].
Qed.

Lemma sort_by_score_sorted (l : list analysis) :
  StronglySorted score_desc (sort_by_score l).
Proof.
  induction l as [|x l IH]; [constructor|].
  cbn [sort_by_score fold_right]. fold (sort_by_score l).
  apply insert_by_score_sorted, IH.
Qed.

Lemma firstn_sorted (n : nat) (l : list analysis) :
  StronglySorted score_desc l -> StronglySorted score_desc (firstn n l).
Proof.
  intros H. revert n. induction H as [|x l Hs IH Hx]; intros n.
  - rewrite firstn_nil. constructor.
  - destruct n as [|n]; [constructor|]. cbn [firstn].
    constructor; [apply IH|].
    apply Forall_forall. intros y Hy.
    rewrite Forall_forall in Hx. apply Hx.
    rewrite <- (firstn_skipn n l). apply in_or_app. left. exact Hy.
Qed.

Lemma firstn_Forall {A : Type} (P : A -> Prop) (n : nat) (l : list A) :
  Forall P l -> Forall P (firstn n l).
Proof.
  intros H. apply Forall_forall. intros y Hy.
  rewrite Forall_forall in H. apply H.
  rewrite <- (firstn_skipn n l). apply in_or_app. left. exact Hy.
Qed.

Lemma slice0_nonneg {A : Type} (e : Z) (l : list A) :
  (0 <= e)%Z -> slice0 e l = firstn (Z.to_nat e) l.
Proof.
  intros H. unfold slice0.
  assert (E : (e <? 0)%Z = false) by (apply Z.ltb_ge; exact H).
  rewrite E.
  destruct (Z.le_gt_cases e (Z.of_nat (length l))) as [Hle|Hgt].
  - rewrite Z.min_l by exact Hle. reflexivity.
  - rewrite Z.min_r by lia. rewrite Nat2Z.id.
    rewrite firstn_all. symmetry. apply firstn_all2. lia.
Qed.

End SortFacts.

Section TopSignals.

Variable analyzeAsset :
  (nat -> number) -> string -> HyperData.t -> option number -> analysis.
Variable rnd : nat -> number.
Variable fetchLuziaTicker : string -> option number.

Hypothesis analysis_volume :
  forall r asset h l, volume (analyzeAsset r asset h l) = HyperData.volume h.

(** The result of the pipeline for a non-negative [topN]. *)
Lemma top_signals_spec (topN : Z) (assets : list (string * AssetCtx.t)) :
  (0 <= topN)%Z ->
  let kept := filter passes_volume_floor assets in
  let analyses := analyses_of analyzeAsset rnd fetchLuziaTicker kept 0 in
  let out := top_signals analyzeAsset rnd fetchLuziaTicker topN assets in
  scan_universe analyzeAsset rnd fetchLuziaTicker assets 0 []
  = (analyses, (60 * length kept)%nat)
  /\ Permutation (sort_by_score analyses) analyses
  /\ out = firstn (Z.to_nat topN) (sort_by_score analyses)
  /\ length out = Nat.min (Z.to_nat topN) (length kept)
  /\ StronglySorted score_desc out
  /\ Forall (fun a => below_volume_floor (volume a) = false) out.
Proof.
  intros HtopN. cbv zeta.
  pose proof (scan_universe_spec analyzeAsset rnd fetchLuziaTicker assets)
    as Hscan.
  cbv zeta in Hscan.
  set (kept := filter passes_volume_floor assets) in *.
  set (analyses := analyses_of analyzeAsset rnd fetchLuziaTicker kept 0) in *.
  assert (Hout : top_signals analyzeAsset rnd fetchLuziaTicker topN assets
                 = firstn (Z.to_nat topN) (sort_by_score analyses)).
  { unfold top_signals. rewrite Hscan. cbn [fst].
    apply slice0_nonneg, HtopN. }
  assert (Hlen : length analyses = length kept).
  { apply length_analyses_of. }
  split; [exact Hscan|].
  split; [apply sort_by_score_perm|].
  split; [exact Hout|].
  rewrite Hout. split.
  { rewrite length_firstn.
    rewrite (Permutation_length (sort_by_score_perm analyses)), Hlen.
    reflexivity. }
  split; [apply firstn_sorted, sort_by_score_sorted|].
  apply firstn_Forall.
  eapply Permutation_Forall; [symmetry; apply sort_by_score_perm|].
  apply analyses_of_volume; [exact analysis_volume|].
  apply Forall_forall. intros a Ha. apply filter_In in Ha. tauto.
Qed.

End TopSignals.

Lemma Telegram_analysis_volume r asset h l :
  volume (Telegram.analyzeAsset r asset h l) = HyperData.volume h.
Proof.
  unfold Telegram.analyzeAsset.
  destruct (Telegram.score_rules _ _ _ _ _ _ _ _) as [[s sg] b].
  reflexivity.
Qed.

Lemma Professional_analysis_volume r asset h l :
  volume (Professional.analyzeAsset r asset h l) = HyperData.volume h.
Proof.
  unfold Professional.analyzeAsset.
  destruct (Professional.score_rules _ _ _ _ _ _ _ _ _) as [[s sg] b].
  reflexivity.
Qed.

(** * The claims *)

Section Claims.

Local Open Scope Qc_scope.

(** ** C1 *)




(** The v2.0 sizer prices its targets with [1 + ...] whatever the bias:
    for a BEARISH signal at entry price 100 with [atrPercent] 2 the stop
    is 103 and the targets are 109, 118 and 127, all above the entry
    price. *)
Lemma Telegram_bearish_targets_above_entry :
  let signal := example_signal BEARISH in
  let r := Telegram.calculatePositionSize signal (lit 10000) (lit 0.02) in
  (stopLossPrice r === lit 103)%js = true
  /\ (TakeProfit.price (takeProfit1 r) === lit 109)%js = true
  /\ (TakeProfit.price (takeProfit2 r) === lit 118)%js = true
  /\ (TakeProfit.price (takeProfit3 r) === lit 127)%js = true
  /\ (TakeProfit.price (takeProfit1 r) >? price signal)%js = true.
Proof.
  vm_compute. repeat split; reflexivity.
Qed.

(** ** C2 *)

(** C2.  In both sizers [riskAmount] is the balance times the risk
    fraction, the stop distance is positive, [positionSize] is
    [riskAmount / (stopDistance / 100)], [leverageToUse] is the minimum of
    [positionSize / accountBalance] and the maximum leverage, and
    [leverageToUse] never exceeds the maximum leverage; the function is
    total, so the cap raises no error. *)
Theorem sizing_and_leverage_cap (signal : analysis)
  (accountBalance risk : number) (riskProfile : Professional.RiskProfile.t) :
  let r1 := Professional.calculatePositionSize signal accountBalance
                                               riskProfile in
  let r2 := Telegram.calculatePositionSize signal accountBalance risk in
  let max_leverage := Professional.RiskProfile.max_leverage riskProfile in
  (riskAmount r1
   = (accountBalance * Professional.RiskProfile.risk riskProfile)%js
   /\ (stopDistance r1 >? lit 0)%js = true
   /\ positionSize r1 = (riskAmount r1 / (stopDistance r1 / lit 100))%js
   /\ leverageToUse r1
      = Math_min (positionSize r1 / accountBalance)%js max_leverage
   /\ (leverageToUse r1 >? max_leverage)%js = false)
  /\ (riskAmount r2 = (accountBalance * risk)%js
   /\ (stopDistance r2 >? lit 0)%js = true
   /\ positionSize r2 = (riskAmount r2 / (stopDistance r2 / lit 100))%js
   /\ leverageToUse r2
      = Math_min (positionSize r2 / accountBalance)%js Telegram.MAX_LEVERAGE
   /\ (leverageToUse r2 >? Telegram.MAX_LEVERAGE)%js = false).
Proof.
  cbv zeta. split.
  - apply Professional_sizing.
  - apply Telegram_sizing.
Qed.

(** ** C3 *)

(** C3, as amended.  With RSI 25, a bullish MACD with histogram 0.5, the
    price above the three EMAs, a 24h change of 7, funding -0.08 and
    volume 60,000,000, the v2.0 scoring rules give score 100, bias BULLISH
    and the labels RSI Oversold, MACD Bullish, Strong Uptrend, Strong
    Momentum, Negative Funding; the v1.0 rules give the same score and
    bias when the Bollinger position is within [-1, 1], and their last
    label reads Negative Funding (Shorts). *)
Theorem scoring_example (fmScore markPx momentum macdLine signalLine : number)
  (price : number) (bb : Bollinger.t) (ema9 ema21 ema50 : option number) :
  (price >? toNumber ema9)%js = true ->
  (price >? toNumber ema21)%js = true ->
  (price >? toNumber ema50)%js = true ->
  (Bollinger.position bb <? lit (-1))%js = false ->
  (Bollinger.position bb >? lit 1)%js = false ->
  let h := example_hyperData fmScore markPx momentum in
  let m := example_macd macdLine signalLine in
  Telegram.score_rules h (lit 7) price (lit 25) m ema9 ema21 ema50
  = (100%Z,
     ["RSI Oversold"; "MACD Bullish"; "Strong Uptrend"; "Strong Momentum";
      "Negative Funding"]%string,
     BULLISH)
  /\ Professional.score_rules h (lit 7) price (lit 25) m bb ema9 ema21 ema50
  = (100%Z,
     ["RSI Oversold"; "MACD Bullish"; "Strong Uptrend"; "Strong Momentum";
      "Negative Funding (Shorts)"]%string,
     BULLISH).
Proof.
  intros H9 H21 H50 Hlo Hhi. cbv zeta.
  unfold Telegram.score_rules, Professional.score_rules, ema_rule,
    Professional.bollinger_rule.
  cbn [filter]. rewrite H9, H21, H50, Hlo, Hhi.
  split; reflexivity.
Qed.

Lemma scoring_example_witness :
  Telegram.score_rules (example_hyperData (lit 0) (lit 100) (lit 7))
    (lit 7) (lit 100) (lit 25) (example_macd (lit 1) (lit 0.5))
    (Some (lit 99)) (Some (lit 98)) (Some (lit 95))
  = (100%Z,
     ["RSI Oversold"; "MACD Bullish"; "Strong Uptrend"; "Strong Momentum";
      "Negative Funding"]%string,
     BULLISH).
Proof.
  apply (scoring_example (lit 0) (lit 100) (lit 7) (lit 1) (lit 0.5)
           (lit 100) (Bollinger.mk (lit 101) (lit 99) (lit 97) (lit 0.25))
           (Some (lit 99)) (Some (lit 98)) (Some (lit 95)));
    reflexivity.
Defined.

(** C3, counterexample.  On the inputs of the example the v1.0 scoring
    rules do not return the label list of the claim: their fifth label is
    Negative Funding (Shorts). *)
Lemma Professional_scoring_labels_differ :
  Professional.score_rules (example_hyperData (lit 0) (lit 100) (lit 7))
    (lit 7) (lit 100) (lit 25) (example_macd (lit 1) (lit 0.5))
    (Bollinger.mk (lit 101) (lit 99) (lit 97) (lit 0.25))
    (Some (lit 99)) (Some (lit 98)) (Some (lit 95))
  <> (100%Z,
      ["RSI Oversold"; "MACD Bullish"; "Strong Uptrend"; "Strong Momentum";
       "Negative Funding"]%string,
      BULLISH).
Proof.
  intros H. vm_compute in H. discriminate H.
Qed.

(** ** C4 *)




(** ** C5 *)

(** C5.  [calculateRSI] returns 50 on every sequence shorter than
    [period + 1], whatever its content, and returns 100 on every strictly
    increasing sequence of more than 15 prices with the default period:
    the average loss is exactly 0 and the function returns before the
    division by it. *)
Theorem rsi_sentinel_and_rising :
  (forall (prices : list number) (period : nat),
      (length prices < period + 1)%nat ->
      calculateRSI prices period = lit 50)
  /\ (forall prices : list number,
      strictly_increasing prices = true ->
      (15 < length prices)%nat ->
      calculateRSI prices default_period = lit 100).
Proof.
  split.
  - apply calculateRSI_short.
  - intros prices Hinc Hlen. apply calculateRSI_rising.
    + unfold default_period. lia.
    + unfold default_period. lia.
    + exact Hinc.
Qed.

Lemma rsi_sentinel_and_rising_witness :
  calculateRSI [lit 3; lit 1; lit 2] default_period = lit 50
  /\ calculateRSI (map of_nat (seq 1 16)) default_period = lit 100.
Proof.
  split.
  - apply (proj1 rsi_sentinel_and_rising). cbn. lia.
  - apply (proj2 rsi_sentinel_and_rising).
    + reflexivity.
    + cbn. lia.
Defined.

(** ** C6 *)

(** C6.  [calculateMACD] returns [{macd: 0, signal: 0, bullish: true}],
    without histogram, on fewer than 35 prices; on 35 prices or more both
    EMAs are defined, the MACD line is EMA12 minus EMA26, the signal line
    is 0.85 times the MACD line, the histogram is the MACD line minus the
    signal line, and [bullish] tells whether the MACD line is above the
    signal line. *)
Theorem macd_default_and_lines :
  (forall prices : list number,
      (length prices < 35)%nat ->
      calculateMACD prices = MACD.mk (lit 0) (lit 0) None true)
  /\ (forall prices : list number,
      (35 <= length prices)%nat ->
      exists ema12 ema26 : number,
        calculateEMA prices 12 = Some ema12
        /\ calculateEMA prices 26 = Some ema26
        /\ let r := calculateMACD prices in
           MACD.macd r = (ema12 - ema26)%js
           /\ MACD.signal r = (MACD.macd r * lit 0.85)%js
           /\ MACD.histogram r = Some (MACD.macd r - MACD.signal r)%js
           /\ MACD.bullish r = (MACD.macd r >? MACD.signal r)%js).
Proof.
  split.
  - apply calculateMACD_short.
  - intros prices Hlen.
    rewrite (calculateMACD_long prices Hlen). cbv zeta.
    rewrite (calculateEMA_long prices 12) by lia.
    rewrite (calculateEMA_long prices 26) by lia.
    do 2 eexists. split; [reflexivity|]. split; [reflexivity|].
    cbn [MACD.macd MACD.signal MACD.histogram MACD.bullish toNumber].
    repeat split.
Qed.

Lemma macd_default_and_lines_witness :
  calculateMACD [lit 1; lit 2; lit 3] = MACD.mk (lit 0) (lit 0) None true
  /\ MACD.signal (calculateMACD (repeat (lit 100) 35))
     = (MACD.macd (calculateMACD (repeat (lit 100) 35)) * lit 0.85)%js.
Proof.
  split.
  - apply (proj1 macd_default_and_lines). cbn. lia.
  - destruct (proj2 macd_default_and_lines (repeat (lit 100) 35))
      as [e12 [e26 [_ [_ H]]]].
    + rewrite repeat_length. lia.
    + cbv zeta in H. apply H.
Defined.

(** ** C7 *)




(** ** C8 *)



(** ** C9 *)

(** C9.  In both services, for a non-negative [topN]: the scan analyses
    exactly the assets whose volume is not below 5,000,000, in order, and
    draws random numbers for those only (60 each), so an excluded asset is
    never analysed; the result is the first [topN] analyses of the list
    sorted by descending score, which is a rearrangement of all analyses;
    it holds [min topN (number of kept assets)] signals, in descending
    score order, none with a volume below the floor. *)
Theorem generateSignals_filter_sort_top (rnd : nat -> number)
  (fetchLuziaTicker : string -> option number) (topN : Z)
  (assets : list (string * AssetCtx.t)) :
  (0 <= topN)%Z ->
  let kept := filter passes_volume_floor assets in
  (let analyses :=
     analyses_of Telegram.analyzeAsset rnd fetchLuziaTicker kept 0 in
   let out := Telegram.generateSignals rnd fetchLuziaTicker topN assets in
   scan_universe Telegram.analyzeAsset rnd fetchLuziaTicker assets 0 []
   = (analyses, (60 * length kept)%nat)
   /\ Permutation (sort_by_score analyses) analyses
   /\ out = firstn (Z.to_nat topN) (sort_by_score analyses)
   /\ length out = Nat.min (Z.to_nat topN) (length kept)
   /\ StronglySorted score_desc out
   /\ Forall (fun a => below_volume_floor (volume a) = false) out)
  /\ (let analyses :=
     analyses_of Professional.analyzeAsset rnd fetchLuziaTicker kept 0 in
   let out :=
     Professional.generateSignals rnd fetchLuziaTicker topN assets in
   scan_universe Professional.analyzeAsset rnd fetchLuziaTicker assets 0 []
   = (analyses, (60 * length kept)%nat)
   /\ Permutation (sort_by_score analyses) analyses
   /\ out = firstn (Z.to_nat topN) (sort_by_score analyses)
   /\ length out = Nat.min (Z.to_nat topN) (length kept)
   /\ StronglySorted score_desc out
   /\ Forall (fun a => below_volume_floor (volume a) = false) out).
Proof.
  intros HtopN. cbv zeta. split.
  - apply (top_signals_spec Telegram.analyzeAsset rnd fetchLuziaTicker
             Telegram_analysis_volume topN assets HtopN).
  - apply (top_signals_spec Professional.analyzeAsset rnd fetchLuziaTicker
             Professional_analysis_volume topN assets HtopN).
Qed.

Lemma generateSignals_filter_sort_top_witness :
  length (Telegram.generateSignals (fun _ => lit 0.5) (fun _ => None) 10
                                   example_assets)
  = 1%nat.
Proof.
  pose proof (generateSignals_filter_sort_top (fun _ => lit 0.5)
                (fun _ => None) 10 example_assets ltac:(lia)) as H.
  cbv zeta in H. destruct H as [[_ [_ [_ [H _]]]] _].
  rewrite H. reflexivity.
Defined.

(** ** C10 *)



End Claims.

(** * Further properties *)

(** ** Order facts on rationals *)

Section RationalOrder.

Local Open Scope Qc_scope.

Lemma Qcinv_pos (d : Qc) : 0 < d -> 0 < / d.
Proof.
  intros Hd.
  assert (Hne : d <> 0).
  { intros E. rewrite E in Hd. revert Hd. apply Qcle_not_lt, Qcle_refl. }
  destruct (Qc_dec 0 (/ d)) as [[H|H]|H]; [exact H| |].
  - exfalso. assert (H1 : d * / d = 1) by (apply Qcmult_inv_r, Hne).
    assert (H2 : d * / d < 0).
    { rewrite Qcmult_comm. replace 0 with (0 * d) by ring.
      apply Qcmult_lt_compat_r; assumption. }
    rewrite H1 in H2. revert H2. apply Qcle_not_lt. discriminate.
  - exfalso. assert (H1 : d * / d = 1) by (apply Qcmult_inv_r, Hne).
    rewrite <- H in H1. rewrite Qcmult_0_r in H1. discriminate.
Qed.

Lemma Qclt_neq_0 (d : Qc) : 0 < d -> d <> 0.
Proof.
  intros Hd E. rewrite E in Hd. revert Hd. apply Qcle_not_lt, Qcle_refl.
Qed.

Lemma Qcdiv_nonneg (a d : Qc) : 0 <= a -> 0 < d -> 0 <= a / d.
Proof.
  intros Ha Hd. unfold Qcdiv. replace 0 with (0 * / d) by ring.
  apply Qcmult_le_compat_r; [exact Ha|].
  apply Qclt_le_weak, Qcinv_pos, Hd.
Qed.

Lemma Qcdiv_pos (a d : Qc) : 0 < a -> 0 < d -> 0 < a / d.
Proof.
  intros Ha Hd. unfold Qcdiv. replace 0 with (0 * / d) by ring.
  apply Qcmult_lt_compat_r; [apply Qcinv_pos, Hd | exact Ha].
Qed.

(** [lo * d <= a <= hi * d] gives [lo <= a / d <= hi]. *)
Lemma Qcdiv_between (a d lo hi : Qc) :
  0 < d -> lo * d <= a -> a <= hi * d -> lo <= a / d /\ a / d <= hi.
Proof.
  intros Hd Hlo Hhi.
  pose proof (Qclt_le_weak _ _ (Qcinv_pos d Hd)) as Hi.
  pose proof (Qclt_neq_0 d Hd) as Hne.
  split.
  - replace lo with (lo * d * / d) by (field; exact Hne).
    unfold Qcdiv. apply Qcmult_le_compat_r; assumption.
  - replace hi with (hi * d * / d) by (field; exact Hne).
    unfold Qcdiv. apply Qcmult_le_compat_r; assumption.
Qed.

Lemma Qc_le_lt_dec_bool (a b : Qc) : Qc_ltb a b = true \/ b <= a.
Proof.
  destruct (Qc_ltb a b) eqn:E; [left; reflexivity|].
  right. apply Qc_ltb_ge, E.
Qed.

End RationalOrder.

(** ** RSI on finite prices *)

Section RSIRange.

Local Open Scope Qc_scope.

Lemma pos_nonneg_finite (x : number) : pos_finite x -> nonneg_finite x.
Proof.
  intros [q [-> H]]. exists q. split; [reflexivity|].
  apply Qclt_le_weak, H.
Qed.

Lemma price_changes_finite (qs : list Qc) :
  exists cs, price_changes (map Num qs) = map Num cs.
Proof.
  induction qs as [|a qs IH]; [exists []; reflexivity|].
  destruct qs as [|b qs]; [exists []; reflexivity|].
  destruct IH as [cs IH]. exists ((b + - a) :: cs).
  cbn [map price_changes] in *. rewrite IH. reflexivity.
Qed.

Lemma gain_of_nonneg (c : Qc) : nonneg_finite (gain_of (Num c)).
Proof.
  unfold gain_of, gt, lit. cbn [lt].
  destruct (Qc_ltb (Q2Qc 0) c) eqn:E.
  - exists c. split; [reflexivity|].
    apply Qclt_le_weak, Qc_ltb_lt, E.
  - exists 0. split; [reflexivity | apply Qcle_refl].
Qed.

Lemma loss_of_nonneg (c : Qc) : nonneg_finite (loss_of (Num c)).
Proof.
  unfold loss_of, lit. cbn [lt Math_abs].
  destruct (Qc_ltb c (Q2Qc 0)) eqn:E.
  - exists (- c). split; [reflexivity|].
    apply Qc_ltb_lt in E. qc_lra.
  - exists 0. split; [reflexivity | apply Qcle_refl].
Qed.

Lemma Forall_map_finite (f : number -> number) (P : number -> Prop)
  (cs : list Qc) :
  (forall c, P (f (Num c))) -> Forall P (map f (map Num cs)).
Proof.
  intros H. induction cs; cbn; constructor; auto.
Qed.

Lemma fold_add_nonneg (l : list number) (acc : number) :
  Forall nonneg_finite l -> nonneg_finite acc ->
  nonneg_finite (fold_left add l acc).
Proof.
  intros Hl. revert acc.
  induction Hl as [|x l [q [-> Hq]] _ IH]; intros acc Hacc; [exact Hacc|].
  cbn [fold_left]. apply IH. destruct Hacc as [a [-> Ha]].
  exists (a + q). split; [reflexivity|]. qc_lra.
Qed.

Lemma sum_nonneg (l : list number) :
  Forall nonneg_finite l -> nonneg_finite (sum l).
Proof.
  intros H. apply fold_add_nonneg; [exact H|].
  exists 0. split; [reflexivity | apply Qcle_refl].
Qed.

Lemma div_of_nat_nonneg (x : number) (n : nat) :
  (0 < n)%nat -> nonneg_finite x -> nonneg_finite (x / of_nat n)%js.
Proof.
  intros Hn [q [-> Hq]]. rewrite div_of_nat by exact Hn.
  eexists. split; [reflexivity|].
  apply Qcdiv_nonneg; [exact Hq | apply of_nat_pos, Hn].
Qed.

Lemma div_of_nat_pos (x : number) (n : nat) :
  (0 < n)%nat -> pos_finite x -> pos_finite (x / of_nat n)%js.
Proof.
  intros Hn [q [-> Hq]]. rewrite div_of_nat by exact Hn.
  eexists. split; [reflexivity|].
  apply Qcdiv_pos; [exact Hq | apply of_nat_pos, Hn].
Qed.

Lemma of_nat_pred_nonneg (n : nat) :
  (0 < n)%nat -> 0 <= Q2Qc (inject_Z (Z.of_nat n)) + - Q2Qc 1.
Proof.
  intros Hn. qc_to_q. change 1%Q with (inject_Z 1).
  rewrite <- inject_Z_opp, <- inject_Z_plus.
  change 0%Q with (inject_Z 0). rewrite <- Zle_Qle. lia.
Qed.

Lemma wilder_nonneg (period : nat) (avg x : number) :
  (0 < period)%nat -> nonneg_finite avg -> nonneg_finite x ->
  nonneg_finite (wilder period avg x).
Proof.
  intros Hp [a [-> Ha]] [b [-> Hb]]. unfold wilder.
  apply div_of_nat_nonneg; [exact Hp|].
  unfold of_nat, lit. cbn [sub neg add mul].
  eexists. split; [reflexivity|].
  pose proof (of_nat_pred_nonneg period Hp) as H.
  revert H. generalize (Q2Qc (inject_Z (Z.of_nat period)) + - Q2Qc 1).
  intros k Hk. qc_to_q. nra.
Qed.

Lemma wilder_pos (period : nat) (avg x : number) :
  (0 < period)%nat -> nonneg_finite avg -> pos_finite x ->
  pos_finite (wilder period avg x).
Proof.
  intros Hp [a [-> Ha]] [b [-> Hb]]. unfold wilder.
  apply div_of_nat_pos; [exact Hp|].
  unfold of_nat, lit. cbn [sub neg add mul].
  eexists. split; [reflexivity|].
  pose proof (of_nat_pred_nonneg period Hp) as H.
  revert H. generalize (Q2Qc (inject_Z (Z.of_nat period)) + - Q2Qc 1).
  intros k Hk. qc_to_q. nra.
Qed.

Lemma rsi_smooth_nonneg (period : nat) (l : list (number * number))
  (avg : number * number) :
  (0 < period)%nat ->
  Forall (fun gl => nonneg_finite (fst gl) /\ nonneg_finite (snd gl)) l ->
  nonneg_finite (fst avg) -> nonneg_finite (snd avg) ->
  nonneg_finite (fst (fold_left (rsi_smooth period) l avg))
  /\ nonneg_finite (snd (fold_left (rsi_smooth period) l avg)).
Proof.
  intros Hp Hl. revert avg.
  induction Hl as [|gl l [Hg Hs] _ IH]; intros avg H1 H2; [split; assumption|].
  cbn [fold_left]. apply IH; unfold rsi_smooth; cbn [fst snd];
    apply wilder_nonneg; assumption.
Qed.

Lemma Forall_combine {A B : Type} (P : A -> Prop) (Q : B -> Prop)
  (l : list A) (l' : list B) :
  Forall P l -> Forall Q l' ->
  Forall (fun ab => P (fst ab) /\ Q (snd ab)) (combine l l').
Proof.
  intros Hl. revert l'. induction Hl as [|x l Hx _ IH]; intros l' Hl';
    [constructor|].
  destruct Hl' as [|y l' Hy Hl']; [constructor|].
  cbn. constructor; [split; assumption | apply IH, Hl'].
Qed.

(** The averages that [calculateRSI] compares, on finite prices. *)
Lemma rsi_averages_nonneg (qs : list Qc) (period : nat) :
  (0 < period)%nat ->
  let changes := price_changes (map Num qs) in
  let gains := map gain_of changes in
  let losses := map loss_of changes in
  let avg :=
    fold_left (rsi_smooth period)
              (combine (skipn period gains) (skipn period losses))
              ((sum (slice_last period gains) / of_nat period)%js,
               (sum (slice_last period losses) / of_nat period)%js) in
  nonneg_finite (fst avg) /\ nonneg_finite (snd avg).
Proof.
  intros Hp. cbv zeta.
  destruct (price_changes_finite qs) as [cs ->].
  assert (Hg : Forall nonneg_finite (map gain_of (map Num cs)))
    by (apply Forall_map_finite, gain_of_nonneg).
  assert (Hl : Forall nonneg_finite (map loss_of (map Num cs)))
    by (apply Forall_map_finite, loss_of_nonneg).
  apply rsi_smooth_nonneg; [exact Hp| | |]; cbn [fst snd].
  - apply Forall_combine; apply Forall_skipn; assumption.
  - apply div_of_nat_nonneg; [exact Hp|].
    apply sum_nonneg, Forall_slice_last, Hg.
  - apply div_of_nat_nonneg; [exact Hp|].
    apply sum_nonneg, Forall_slice_last, Hl.
Qed.

(** The value [100 - 100 / (1 + g / l)] for [g >= 0] and [l > 0]. *)
Lemma rsi_value_range (g l : Qc) :
  0 <= g -> 0 < l ->
  exists r,
    (lit 100 - lit 100 / (lit 1 + Num g / Num l))%js = Num r
    /\ 0 <= r /\ r < Q2Qc 100.
Proof.
  intros Hg Hl. unfold lit. cbn [div].
  assert (E : Qc_eqb l 0 = false)
    by (apply Qc_eqb_neq, Qclt_neq_0, Hl).
  rewrite E. cbn [add].
  pose proof (Qcdiv_nonneg g l Hg Hl) as Hx.
  revert Hx. generalize (g / l). intros x Hx.
  assert (Hd : 0 < Q2Qc 1 + x) by qc_lra.
  assert (E2 : Qc_eqb (Q2Qc 1 + x) 0 = false)
    by (apply Qc_eqb_neq, Qclt_neq_0, Hd).
  cbn [div]. rewrite E2. cbn [sub neg add].
  eexists. split; [reflexivity|].
  assert (H100 : 0 < Q2Qc 100) by reflexivity.
  pose proof (Qcdiv_pos (Q2Qc 100) (Q2Qc 1 + x) H100 Hd) as Hpos.
  destruct (Qcdiv_between (Q2Qc 100) (Q2Qc 1 + x) 0 (Q2Qc 100) Hd)
    as [_ Hle].
  { qc_lra. }
  { qc_to_q. nra. }
  revert Hpos Hle. generalize (Q2Qc 100 / (Q2Qc 1 + x)). intros y Hy1 Hy2.
  split; qc_lra.
Qed.

End RSIRange.

Section RSIExtremes.

Local Open Scope Qc_scope.

(** The loss recorded for a move that is not a fall is [0], whatever the
    two prices. *)
Lemma loss_of_no_fall (a b : number) :
  (b <? a)%js = false -> loss_of (b - a) = Num 0.
Proof.
  intros H. unfold loss_of.
  assert (E : ((b - a) <? lit 0)%js = false).
  { destruct a as [a| | |], b as [b| | |]; cbn in H |- *;
      try discriminate; try reflexivity.
    apply Qc_ltb_ge in H. apply Qc_ltb_ge. qc_lra. }
  rewrite E. reflexivity.
Qed.

Lemma losses_of_non_decreasing (prices : list number) :
  non_decreasing prices = true ->
  Forall (fun x => x = Num 0) (map loss_of (price_changes prices)).
Proof.
  induction prices as [|a rest IH]; intros H; [constructor|].
  destruct rest as [|b rest]; [constructor|].
  cbn [non_decreasing] in H. apply andb_true_iff in H as [Hab Hrest].
  cbn [price_changes map]. constructor.
  - apply loss_of_no_fall. apply negb_true_iff, Hab.
  - apply IH, Hrest.
Qed.

Lemma gain_of_fall (a b : Qc) : b < a -> gain_of (Num b - Num a) = Num 0.
Proof.
  intros H. unfold gain_of, gt, lit. cbn [sub neg add lt].
  assert (E : Qc_ltb (Q2Qc 0) (b + - a) = false)
    by (apply Qc_ltb_ge; qc_lra).
  rewrite E. reflexivity.
Qed.

Lemma loss_of_fall (a b : Qc) : b < a -> pos_finite (loss_of (Num b - Num a)).
Proof.
  intros H. unfold loss_of, lit. cbn [sub neg add lt Math_abs].
  assert (E : Qc_ltb (b + - a) (Q2Qc 0) = true)
    by (apply Qc_ltb_lt; qc_lra).
  rewrite E. eexists. split; [reflexivity|]. qc_lra.
Qed.

Lemma changes_of_falling (qs : list Qc) :
  strictly_decreasing (map Num qs) = true ->
  Forall (fun x => x = Num 0) (map gain_of (price_changes (map Num qs)))
  /\ Forall pos_finite (map loss_of (price_changes (map Num qs))).
Proof.
  induction qs as [|a rest IH]; intros H; [split; constructor|].
  destruct rest as [|b rest]; [split; constructor|].
  cbn [map strictly_decreasing] in H.
  apply andb_true_iff in H as [Hab Hrest].
  cbn [lt] in Hab. apply Qc_ltb_lt in Hab.
  destruct (IH Hrest) as [IH1 IH2].
  cbn [map price_changes]. split; constructor.
  - apply gain_of_fall, Hab.
  - exact IH1.
  - apply loss_of_fall, Hab.
  - exact IH2.
Qed.

Lemma length_price_changes (prices : list number) :
  length (price_changes prices) = (length prices - 1)%nat.
Proof.
  induction prices as [|a rest IH]; [reflexivity|].
  destruct rest as [|b rest]; [reflexivity|].
  cbn [price_changes length] in *. rewrite IH. lia.
Qed.

Lemma fold_add_pos (l : list number) (acc : number) :
  Forall pos_finite l -> l <> [] -> nonneg_finite acc ->
  pos_finite (fold_left add l acc).
Proof.
  intros Hl. revert acc.
  induction Hl as [|x l [q [-> Hq]] Hl IH]; intros acc Hne Hacc;
    [contradiction|].
  cbn [fold_left]. destruct Hacc as [a [-> Ha]]. cbn [add].
  destruct l as [|y l].
  - cbn. eexists. split; [reflexivity|]. qc_lra.
  - apply IH; [discriminate|].
    eexists. split; [reflexivity|]. qc_lra.
Qed.

Lemma rsi_smooth_no_gain (period : nat) (l : list (number * number))
  (avg : number * number) :
  (0 < period)%nat ->
  Forall (fun gl => fst gl = Num 0 /\ pos_finite (snd gl)) l ->
  fst avg = Num 0 -> pos_finite (snd avg) ->
  fst (fold_left (rsi_smooth period) l avg) = Num 0
  /\ pos_finite (snd (fold_left (rsi_smooth period) l avg)).
Proof.
  intros Hp Hl. revert avg.
  induction Hl as [|gl l [Hg Hs] _ IH]; intros avg H1 H2; [split; assumption|].
  cbn [fold_left]. apply IH; unfold rsi_smooth; cbn [fst snd].
  - rewrite Hg, H1. apply wilder_zero, Hp.
  - apply wilder_pos; [exact Hp | apply pos_nonneg_finite, H2 | exact Hs].
Qed.

(** With no fall at all [calculateRSI] returns 100. *)
Lemma calculateRSI_no_loss (prices : list number) (period : nat) :
  (0 < period)%nat -> (period + 1 <= length prices)%nat ->
  Forall (fun x => x = Num 0) (map loss_of (price_changes prices)) ->
  calculateRSI prices period = lit 100.
Proof.
  intros Hp Hlen Hz. unfold calculateRSI.
  assert (E : (length prices <? period + 1)%nat = false)
    by (apply Nat.ltb_ge; exact Hlen).
  rewrite E. clear E.
  set (gains := map gain_of (price_changes prices)) in *.
  set (losses := map loss_of (price_changes prices)) in *.
  assert (H0 : (sum (slice_last period losses) / of_nat period)%js = Num 0).
  { rewrite sum_zeros by (apply Forall_slice_last, Hz).
    rewrite div_of_nat by exact Hp. f_equal.
    field. apply of_nat_neq_0, Hp. }
  rewrite H0.
  assert (Hs : snd (fold_left (rsi_smooth period)
                      (combine (skipn period gains) (skipn period losses))
                      ((sum (slice_last period gains) / of_nat period)%js,
                       Num 0)) = Num 0).
  { apply rsi_smooth_no_loss; [exact Hp| |reflexivity].
    apply Forall_forall. intros [g l] Hin. cbn.
    apply in_combine_r in Hin.
    pose proof (Forall_skipn _ period _ Hz) as Hz'.
    rewrite Forall_forall in Hz'. apply Hz', Hin. }
  destruct (fold_left _ _ _) as [avgGain avgLoss].
  cbn in Hs. subst avgLoss. reflexivity.
Qed.

End RSIExtremes.

(** ** EMA on finite data *)

Section EMABounds.

Local Open Scope Qc_scope.

Lemma fold_add_bounds (lo hi : Qc) (qs : list Qc) (acc : Qc) :
  Forall (fun q => lo <= q /\ q <= hi) qs ->
  exists s,
    fold_left add (map Num qs) (Num acc) = Num s
    /\ acc + Q2Qc (inject_Z (Z.of_nat (length qs))) * lo <= s
    /\ s <= acc + Q2Qc (inject_Z (Z.of_nat (length qs))) * hi.
Proof.
  intros H. revert acc.
  induction H as [|q qs [Hlo Hhi] _ IH]; intros acc.
  - exists acc. split; [reflexivity|].
    change (Q2Qc (inject_Z (Z.of_nat (length (@nil Qc))))) with 0.
    split; qc_lra.
  - cbn [map fold_left add]. destruct (IH (acc + q)) as [s [-> [H1 H2]]].
    exists s. split; [reflexivity|].
    cbn [length]. rewrite of_nat_S.
    revert H1 H2. generalize (Q2Qc (inject_Z (Z.of_nat (length qs)))).
    intros n H1 H2. split; qc_lra.
Qed.

Lemma sum_bounds (lo hi : Qc) (qs : list Qc) :
  Forall (fun q => lo <= q /\ q <= hi) qs ->
  exists s,
    sum (map Num qs) = Num s
    /\ Q2Qc (inject_Z (Z.of_nat (length qs))) * lo <= s
    /\ s <= Q2Qc (inject_Z (Z.of_nat (length qs))) * hi.
Proof.
  intros H. destruct (fold_add_bounds lo hi qs 0 H) as [s [E [H1 H2]]].
  exists s. split; [exact E|].
  revert H1 H2. generalize (Q2Qc (inject_Z (Z.of_nat (length qs)))).
  intros n H1 H2. split; qc_lra.
Qed.

Lemma ema_multiplier_bounds (period : nat) :
  (0 < period)%nat ->
  exists m, (lit 2 / (of_nat period + lit 1))%js = Num m /\ 0 < m /\ m <= 1.
Proof.
  intros Hp. unfold of_nat, lit. cbn [add div].
  assert (Hd : Q2Qc 2 <= Q2Qc (inject_Z (Z.of_nat period)) + Q2Qc 1).
  { qc_to_q. change 1%Q with (inject_Z 1). rewrite <- inject_Z_plus.
    change 2%Q with (inject_Z 2). rewrite <- Zle_Qle. lia. }
  revert Hd. generalize (Q2Qc (inject_Z (Z.of_nat period)) + Q2Qc 1).
  intros d Hd.
  assert (Hpos : 0 < d) by qc_lra.
  assert (E : Qc_eqb d 0 = false) by (apply Qc_eqb_neq, Qclt_neq_0, Hpos).
  rewrite E. eexists. split; [reflexivity|]. split.
  - apply Qcdiv_pos; [reflexivity | exact Hpos].
  - destruct (Qcdiv_between (Q2Qc 2) d 0 1 Hpos) as [_ H].
    + qc_lra.
    + qc_lra.
    + exact H.
Qed.

Lemma ema_loop_bounds (lo hi m : Qc) (qs : list Qc) (e : Qc) :
  0 < m -> m <= 1 ->
  Forall (fun q => lo <= q /\ q <= hi) qs ->
  lo <= e -> e <= hi ->
  exists e',
    fold_left (ema_step (Num m)) (map Num qs) (Num e) = Num e'
    /\ lo <= e' /\ e' <= hi.
Proof.
  intros Hm0 Hm1 H. revert e.
  induction H as [|q qs [Hlo Hhi] _ IH]; intros e He1 He2.
  - exists e. repeat split; assumption.
  - cbn [map fold_left]. unfold ema_step at 2. cbn [sub neg add mul].
    apply IH; qc_to_q; nra.
Qed.

End EMABounds.

(** ** ATR on finite data *)

Section ATRFacts.

Local Open Scope Qc_scope.

Lemma at_index_finite (qs : list Qc) (i : nat) :
  (i < length qs)%nat ->
  exists q, at_index (map Num qs) i = Num q /\ nth_error qs i = Some q.
Proof.
  intros H. unfold at_index. rewrite nth_error_map.
  destruct (nth_error qs i) as [q|] eqn:E.
  - exists q. split; reflexivity.
  - apply nth_error_None in E. lia.
Qed.

Lemma Math_abs_nonneg (x : Qc) : nonneg_finite (Math_abs (Num x)).
Proof.
  cbn [Math_abs]. eexists. split; [reflexivity|].
  destruct (Qc_ltb x 0) eqn:E.
  - apply Qc_ltb_lt in E. qc_lra.
  - apply Qc_ltb_ge in E. exact E.
Qed.

Lemma Math_max_ge_r (x y : number) (b : Qc) :
  (exists a, x = Num a) -> y = Num b ->
  exists c, Math_max x y = Num c /\ b <= c.
Proof.
  intros [a ->] ->. rewrite Math_max_finite.
  eexists. split; [reflexivity | apply Qc_max_ge_r].
Qed.

Lemma Math_max_ge_l (x y : number) (a : Qc) :
  x = Num a -> (exists b, y = Num b) ->
  exists c, Math_max x y = Num c /\ a <= c.
Proof.
  intros -> [b ->]. rewrite Math_max_finite.
  eexists. split; [reflexivity|].
  unfold Qc_max. destruct (Qc_ltb a b) eqn:E.
  - apply Qclt_le_weak, Qc_ltb_lt, E.
  - apply Qcle_refl.
Qed.

(** A true range on finite data is finite, not negative, and at least the
    high minus the low. *)
Lemma true_range_finite (hs ls cs : list Qc) (i : nat) :
  (1 <= i < length hs)%nat -> length ls = length hs ->
  length cs = length hs ->
  exists t hi lo,
    true_range (map Num hs) (map Num ls) (map Num cs) i = Num t
    /\ nth_error hs i = Some hi /\ nth_error ls i = Some lo
    /\ 0 <= t /\ hi - lo <= t.
Proof.
  intros [H1 H2] Hl Hc. unfold true_range.
  destruct (at_index_finite hs i H2) as [hi [-> Ehi]].
  destruct (at_index_finite ls i ltac:(lia)) as [lo [-> Elo]].
  destruct (at_index_finite cs (i - 1) ltac:(lia)) as [c [-> _]].
  cbn [sub neg add].
  destruct (Math_abs_nonneg (hi + - c)) as [a1 [-> Ha1]].
  destruct (Math_abs_nonneg (lo + - c)) as [a2 [-> Ha2]].
  destruct (Math_max_ge_l (Num (hi + - lo)) (Num a1) _ eq_refl
              (ex_intro _ a1 eq_refl)) as [m1 [-> Hm1]].
  destruct (Math_max_ge_l (Num m1) (Num a2) _ eq_refl
              (ex_intro _ a2 eq_refl)) as [m2 [E2 Hm2]].
  destruct (Math_max_ge_r (Num m1) (Num a2) a2
              (ex_intro _ m1 eq_refl) eq_refl) as [m2' [E2' Hm2']].
  rewrite E2 in E2'. injection E2' as <-.
  rewrite E2. exists m2, hi, lo.
  repeat split; try assumption.
  - eapply Qcle_trans; eassumption.
  - unfold Qcminus. eapply Qcle_trans; eassumption.
Qed.

Lemma fold_wilder_nonneg (period : nat) (l : list number) (avg : number) :
  (0 < period)%nat -> Forall nonneg_finite l -> nonneg_finite avg ->
  nonneg_finite (fold_left (wilder period) l avg).
Proof.
  intros Hp Hl. revert avg.
  induction Hl as [|x l Hx _ IH]; intros avg Havg; [exact Havg|].
  cbn [fold_left]. apply IH, wilder_nonneg; assumption.
Qed.

Lemma fold_wilder_pos (period : nat) (l : list number) (avg : number) :
  (0 < period)%nat -> Forall pos_finite l -> pos_finite avg ->
  pos_finite (fold_left (wilder period) l avg).
Proof.
  intros Hp Hl. revert avg.
  induction Hl as [|x l Hx _ IH]; intros avg Havg; [exact Havg|].
  cbn [fold_left]. apply IH, wilder_pos; try assumption.
  apply pos_nonneg_finite, Havg.
Qed.

(** With the synthetic spread of [analyzeAsset], highs 2% above and lows
    2% below positive prices, every true range is positive and so is the
    ATR. *)
Lemma calculateATR_spread_pos (qs : list Qc) (period : nat) :
  (0 < period)%nat -> (period + 1 <= length qs)%nat ->
  Forall (fun q => 0 < q) qs ->
  pos_finite
    (calculateATR (map (fun p => p * lit 1.02)%js (map Num qs))
                  (map (fun p => p * lit 0.98)%js (map Num qs))
                  (map Num qs) period).
Proof.
  intros Hp Hlen Hpos.
  replace (map (fun p => p * lit 1.02)%js (map Num qs))
    with (map Num (map (fun q => q * Q2Qc 1.02) qs))
    by (rewrite !map_map; reflexivity).
  replace (map (fun p => p * lit 0.98)%js (map Num qs))
    with (map Num (map (fun q => q * Q2Qc 0.98) qs))
    by (rewrite !map_map; reflexivity).
  set (hs := map (fun q => q * Q2Qc 1.02) qs).
  set (ls := map (fun q => q * Q2Qc 0.98) qs).
  assert (Hh : length hs = length qs) by apply length_map.
  assert (Hl : length ls = length hs)
    by (unfold ls, hs; rewrite !length_map; reflexivity).
  unfold calculateATR. rewrite length_map, Hh.
  assert (E : (length qs <? period + 1)%nat = false)
    by (apply Nat.ltb_ge; exact Hlen).
  rewrite E. clear E.
  set (trs := map (true_range (map Num hs) (map Num ls) (map Num qs))
                  (seq 1 (length qs - 1))).
  assert (Ht : Forall pos_finite trs).
  { apply Forall_forall. intros x Hx. apply in_map_iff in Hx.
    destruct Hx as [i [<- Hi]]. apply in_seq in Hi.
    destruct (true_range_finite hs ls qs i ltac:(lia) Hl (eq_sym Hh))
      as [t [hi [lo [-> [Ehi [Elo [_ Ht]]]]]]].
    exists t. split; [reflexivity|].
    unfold hs in Ehi. unfold ls in Elo.
    rewrite nth_error_map in Ehi, Elo.
    destruct (nth_error qs i) as [q|] eqn:Eq; [|discriminate].
    cbn in Ehi, Elo. injection Ehi as <-. injection Elo as <-.
    assert (Hq : 0 < q).
    { rewrite Forall_forall in Hpos. apply Hpos.
      eapply nth_error_In, Eq. }
    eapply Qclt_le_trans; [|exact Ht]. qc_to_q. lra. }
  apply fold_wilder_pos; [exact Hp | apply Forall_skipn, Ht |].
  apply div_of_nat_pos; [exact Hp|].
  apply fold_add_pos.
  - apply firstn_Forall, Ht.
  - intros Hnil. apply (f_equal (@length number)) in Hnil.
    rewrite length_firstn in Hnil. unfold trs in Hnil.
    rewrite length_map, length_seq in Hnil. cbn in Hnil. lia.
  - exists 0. split; [reflexivity | apply Qcle_refl].
Qed.

End ATRFacts.

(** ** The history on valid inputs *)

Section HistoryValid.

Local Open Scope Qc_scope.

(** For positive prices and a draw in [0, 1) the advance is above 95% of
    the price: the floor of [Math.max] is not the maximum. *)
Lemma advance_price_no_floor (cp p r : Qc) :
  0 < cp -> 0 < p -> 0 <= r -> r < 1 ->
  advance_price (Num cp) (Num p) (Num r)
  = Num (p + (cp - p) / Q2Qc 60 + (r - Q2Qc 0.5) * p * Q2Qc 0.02)
  /\ p * Q2Qc 0.95
     < p + (cp - p) / Q2Qc 60 + (r - Q2Qc 0.5) * p * Q2Qc 0.02.
Proof.
  intros Hcp Hp Hr0 Hr1.
  assert (H : p * Q2Qc 0.95
              < p + (cp - p) / Q2Qc 60 + (r - Q2Qc 0.5) * p * Q2Qc 0.02).
  { qc_to_q. assert (0 <= this r * this p)%Q by nra. lra. }
  split; [|exact H].
  rewrite advance_price_finite. f_equal. unfold Qc_max.
  assert (E : Qc_ltb (p + (cp - p) / Q2Qc 60
                      + (r - Q2Qc 0.5) * p * Q2Qc 0.02)
                     (p * Q2Qc 0.95) = false)
    by (apply Qc_ltb_ge, Qclt_le_weak, H).
  rewrite E. reflexivity.
Qed.

Lemma Forall_pos_finite_map (l : list number) :
  Forall pos_finite l ->
  exists qs, l = map Num qs /\ Forall (fun q => 0 < q) qs.
Proof.
  induction 1 as [|x l [q [-> Hq]] _ [qs [-> IH]]].
  - exists []. split; [reflexivity | constructor].
  - exists (q :: qs). split; [reflexivity | constructor; assumption].
Qed.

(** On valid inputs the history is a list of 120 positive finite
    prices. *)
Lemma history_positive (rnd : nat -> number) (r : nat -> Qc) (cp ch : Qc) :
  0 < cp -> - Q2Qc 100 < ch ->
  (forall i, rnd i = Num (r i) /\ 0 <= r i /\ r i < 1) ->
  exists qs,
    generateSimulatedHistory rnd (Num cp) (Num ch) = map Num qs
    /\ length qs = 120%nat /\ Forall (fun q => 0 < q) qs.
Proof.
  intros Hcp Hch Hrnd.
  pose proof (generateSimulatedHistory_layout rnd (Num cp) (Num ch)) as L.
  cbv zeta in L. destruct L as [Hlen Hnth].
  destruct (start_price_positive cp ch Hcp Hch) as [p0 [Hstart [_ Hpos]]].
  rewrite Hstart in Hnth.
  assert (Hfin : forall k, pos_finite (price_after rnd (Num cp) (Num p0) k)).
  { intros k.
    destruct (price_after_finite rnd r cp p0 Hpos
                (fun i => proj1 (Hrnd i)) k) as [p [E Hp]].
    exists p. split; assumption. }
  assert (Hall : Forall pos_finite
                   (generateSimulatedHistory rnd (Num cp) (Num ch))).
  { apply Forall_forall. intros x Hx.
    apply In_nth_error in Hx. destruct Hx as [j Hj].
    assert (Hjlt : (j < 120)%nat).
    { rewrite <- Hlen. apply nth_error_Some. rewrite Hj. discriminate. }
    pose proof (Nat.div_mod_eq j 2) as Hdm.
    pose proof (Nat.mod_upper_bound j 2 ltac:(lia)) as Hm.
    destruct (Hnth (j / 2)%nat ltac:(lia)) as [H1 H2].
    destruct (j mod 2)%nat as [|[|m]] eqn:Em; [| |lia].
    - rewrite Nat.add_0_r in Hdm. rewrite <- Hdm in H1.
      assert (Ex : x = price_after rnd (Num cp) (Num p0) (j / 2))
        by congruence.
      rewrite Ex. apply Hfin.
    - rewrite <- Hdm in H2.
      assert (Ex : x = price_after rnd (Num cp) (Num p0) (S (j / 2)))
        by congruence.
      rewrite Ex. apply Hfin. }
  destruct (Forall_pos_finite_map _ Hall) as [qs [E Hqs]].
  exists qs. split; [exact E|]. split; [|exact Hqs].
  rewrite <- Hlen, E, length_map. reflexivity.
Qed.

End HistoryValid.

(** ** Bollinger bands on finite prices *)

Section BollingerBands.

Local Open Scope Qc_scope.

Lemma slice_last_map {A B : Type} (f : A -> B) (n : nat) (l : list A) :
  slice_last n (map f l) = map f (slice_last n l).
Proof.
  unfold slice_last. destruct n; [reflexivity|].
  rewrite length_map, skipn_map. reflexivity.
Qed.

Lemma length_slice_last {A : Type} (n : nat) (l : list A) :
  (0 < n <= length l)%nat -> length (slice_last n l) = n.
Proof.
  intros [H1 H2]. unfold slice_last. destruct n; [lia|].
  rewrite length_skipn. lia.
Qed.

Lemma Qsqrt_nonneg (q : Q) : 0 <= Q2Qc (Qsqrt q).
Proof.
  unfold Qcle. cbn [this Q2Qc]. repeat rewrite Qred_correct.
  unfold Qsqrt, Qle. cbn [Qnum Qden]. rewrite Z.mul_1_r, Z.mul_0_l.
  apply Z.sqrt_nonneg.
Qed.

Lemma Math_sqrt_nonneg (x : number) :
  nonneg_finite x -> nonneg_finite (Math_sqrt x).
Proof.
  intros [q [-> Hq]]. unfold Math_sqrt.
  assert (E : Qc_ltb q 0 = false) by (apply Qc_ltb_ge, Hq).
  rewrite E. eexists. split; [reflexivity | apply Qsqrt_nonneg].
Qed.

Lemma squared_deviations_nonneg (m : Qc) (qs : list Qc) :
  Forall nonneg_finite
         (map (fun p => Math_pow (p - Num m)%js 2) (map Num qs)).
Proof.
  induction qs as [|q qs IH]; cbn [map]; constructor; [|exact IH].
  cbn [Math_pow sub neg add mul]. eexists. split; [reflexivity|].
  generalize (q + - m). intros d. qc_to_q. nra.
Qed.

End BollingerBands.

(** ** Score range and bias *)

Section ScoreRange.

Local Open Scope Z_scope.

Ltac rule_cases :=
  repeat (match goal with
          | |- context [if ?b then _ else _] => destruct b
          end);
  cbn [fst snd]; lia.

Lemma Telegram_rsi_rule_delta rsi score signals bias :
  score - 15 <= fst (fst (Telegram.rsi_rule rsi (score, signals, bias)))
  <= score + 25.
Proof. unfold Telegram.rsi_rule. rule_cases. Qed.

Lemma Professional_rsi_rule_delta rsi score signals bias :
  score - 15 <= fst (fst (Professional.rsi_rule rsi (score, signals, bias)))
  <= score + 25.
Proof. unfold Professional.rsi_rule. rule_cases. Qed.

Lemma macd_rule_delta macd score signals :
  score <= fst (macd_rule macd (score, signals)) <= score + 20.
Proof. unfold macd_rule. rule_cases. Qed.

Lemma ema_rule_delta price e9 e21 e50 score signals bias :
  score - 20 <= fst (fst (ema_rule price e9 e21 e50 (score, signals, bias)))
  <= score + 20.
Proof.
  unfold ema_rule.
  repeat (match goal with
          | |- context [if (?a =? ?b)%nat then _ else _] =>
              destruct (a =? b)%nat
          end);
    cbn [fst snd]; lia.
Qed.

Lemma bollinger_rule_delta bb score signals :
  score - 10 <= fst (Professional.bollinger_rule bb (score, signals))
  <= score + 15.
Proof. unfold Professional.bollinger_rule. rule_cases. Qed.

Lemma momentum_rule_delta change24h score signals :
  score - 10 <= fst (momentum_rule change24h (score, signals)) <= score + 10.
Proof. unfold momentum_rule. rule_cases. Qed.

Lemma Telegram_funding_rule_delta funding score signals :
  score - 10 <= fst (Telegram.funding_rule funding (score, signals))
  <= score + 10.
Proof. unfold Telegram.funding_rule. rule_cases. Qed.

Lemma Professional_funding_rule_delta funding score signals :
  score - 10 <= fst (Professional.funding_rule funding (score, signals))
  <= score + 10.
Proof. unfold Professional.funding_rule. rule_cases. Qed.

Lemma volume_score_range volume : 5 <= volume_score volume <= 15.
Proof. unfold volume_score. rule_cases. Qed.

Lemma Telegram_score_rules_range h change24h price rsi macd e9 e21 e50 :
  -50 <= fst (fst (Telegram.score_rules h change24h price rsi macd
                                        e9 e21 e50)) <= 100.
Proof.
  unfold Telegram.score_rules.
  pose proof (Telegram_rsi_rule_delta rsi 0 [] NEUTRAL) as H1.
  destruct (Telegram.rsi_rule rsi _) as [[s1 l1] b1]. cbn [fst] in H1.
  pose proof (macd_rule_delta macd s1 l1) as H2.
  destruct (macd_rule macd _) as [s2 l2]. cbn [fst] in H2.
  pose proof (ema_rule_delta price e9 e21 e50 s2 l2 b1) as H3.
  destruct (ema_rule _ _ _ _ _) as [[s3 l3] b3]. cbn [fst] in H3.
  pose proof (momentum_rule_delta change24h s3 l3) as H4.
  destruct (momentum_rule _ _) as [s4 l4]. cbn [fst] in H4.
  pose proof (Telegram_funding_rule_delta (HyperData.funding h) s4 l4) as H5.
  destruct (Telegram.funding_rule _ _) as [s5 l5]. cbn [fst] in H5.
  pose proof (volume_score_range (HyperData.volume h)) as H6.
  cbn [fst]. lia.
Qed.

Lemma Professional_score_rules_range
  h change24h price rsi macd bb e9 e21 e50 :
  -60 <= fst (fst (Professional.score_rules h change24h price rsi macd bb
                                            e9 e21 e50)) <= 115.
Proof.
  unfold Professional.score_rules.
  pose proof (Professional_rsi_rule_delta rsi 0 [] NEUTRAL) as H1.
  destruct (Professional.rsi_rule rsi _) as [[s1 l1] b1]. cbn [fst] in H1.
  pose proof (macd_rule_delta macd s1 l1) as H2.
  destruct (macd_rule macd _) as [s2 l2]. cbn [fst] in H2.
  pose proof (ema_rule_delta price e9 e21 e50 s2 l2 b1) as H3.
  destruct (ema_rule _ _ _ _ _) as [[s3 l3] b3]. cbn [fst] in H3.
  pose proof (bollinger_rule_delta bb s3 l3) as H3'.
  destruct (Professional.bollinger_rule _ _) as [s3' l3']. cbn [fst] in H3'.
  pose proof (momentum_rule_delta change24h s3' l3') as H4.
  destruct (momentum_rule _ _) as [s4 l4]. cbn [fst] in H4.
  pose proof (Professional_funding_rule_delta (HyperData.funding h) s4 l4)
    as H5.
  destruct (Professional.funding_rule _ _) as [s5 l5]. cbn [fst] in H5.
  pose proof (volume_score_range (HyperData.volume h)) as H6.
  cbn [fst]. lia.
Qed.

End ScoreRange.

Section BiasFacts.

Lemma above_count_le_3 price e9 e21 e50 :
  (above_count price e9 e21 e50 <= 3)%nat.
Proof.
  unfold above_count. cbn [filter].
  destruct (price >? toNumber e9)%js, (price >? toNumber e21)%js,
    (price >? toNumber e50)%js; cbn; lia.
Qed.

(** The bias left by the EMA rule. *)
Lemma ema_rule_bias price e9 e21 e50 score signals bias :
  let n := above_count price e9 e21 e50 in
  let b := snd (ema_rule price e9 e21 e50 (score, signals, bias)) in
  ((2 <= n)%nat -> b = BULLISH)
  /\ (n = 0%nat -> b = BEARISH)
  /\ (n = 1%nat -> b = bias).
Proof.
  cbv zeta. pose proof (above_count_le_3 price e9 e21 e50) as Hle.
  unfold ema_rule. fold (above_count price e9 e21 e50).
  destruct (above_count price e9 e21 e50) as [|[|[|[|n]]]]; cbn;
    repeat split; intros; try reflexivity; lia.
Qed.

Lemma lt_lit_mono (x : number) (a b : Q) :
  (a <= b)%Q -> (x <? lit a)%js = true -> (x <? lit b)%js = true.
Proof.
  intros Hab. destruct x as [q| | |]; cbn; try congruence.
  rewrite !Qc_ltb_lt. intros H. qc_to_q. lra.
Qed.

Lemma gt_lit_mono (x : number) (a b : Q) :
  (b <= a)%Q -> (x >? lit a)%js = true -> (x >? lit b)%js = true.
Proof.
  intros Hab. unfold gt. destruct x as [q| | |]; cbn; try congruence.
  rewrite !Qc_ltb_lt. intros H. qc_to_q. lra.
Qed.

(** The bias left by the RSI rule: NEUTRAL exactly when the RSI is neither
    below 45 nor above 55. *)
Lemma Telegram_rsi_rule_neutral rsi score signals :
  snd (Telegram.rsi_rule rsi (score, signals, NEUTRAL)) = NEUTRAL
  <-> (rsi <? lit 45)%js = false /\ (rsi >? lit 55)%js = false.
Proof.
  unfold Telegram.rsi_rule.
  destruct (rsi <? lit 30)%js eqn:E30.
  { rewrite (lt_lit_mono rsi 30 45 ltac:(discriminate) E30). cbn.
    split; [discriminate | intros [H _]; discriminate]. }
  destruct (rsi >? lit 70)%js eqn:E70.
  { rewrite (gt_lit_mono rsi 70 55 ltac:(discriminate) E70). cbn.
    split; [discriminate | intros [_ H]; discriminate]. }
  destruct (rsi >? lit 55)%js eqn:E55.
  { cbn. split; [discriminate | intros [_ H]; discriminate]. }
  destruct (rsi <? lit 45)%js eqn:E45.
  { cbn. split; [discriminate | intros [H _]; discriminate]. }
  cbn. split; [intros _; split; reflexivity | reflexivity].
Qed.

Lemma Professional_rsi_rule_neutral rsi score signals :
  snd (Professional.rsi_rule rsi (score, signals, NEUTRAL)) = NEUTRAL
  <-> (rsi <? lit 45)%js = false /\ (rsi >? lit 55)%js = false.
Proof.
  unfold Professional.rsi_rule.
  destruct (rsi <? lit 30)%js eqn:E30.
  { rewrite (lt_lit_mono rsi 30 45 ltac:(discriminate) E30). cbn.
    split; [discriminate | intros [H _]; discriminate]. }
  destruct (rsi >? lit 70)%js eqn:E70.
  { rewrite (gt_lit_mono rsi 70 55 ltac:(discriminate) E70). cbn.
    split; [discriminate | intros [_ H]; discriminate]. }
  destruct (rsi >? lit 55)%js eqn:E55.
  { cbn. split; [discriminate | intros [_ H]; discriminate]. }
  destruct (rsi <? lit 45)%js eqn:E45.
  { cbn. split; [discriminate | intros [H _]; discriminate]. }
  cbn. split; [intros _; split; reflexivity | reflexivity].
Qed.

(** The bias of the scoring rules is the one left by the EMA rule on the
    bias of the RSI rule. *)
Lemma Telegram_score_rules_bias h change24h price rsi macd e9 e21 e50 :
  snd (Telegram.score_rules h change24h price rsi macd e9 e21 e50)
  = snd (ema_rule price e9 e21 e50
           (0%Z, [], snd (Telegram.rsi_rule rsi (0%Z, [], NEUTRAL)))).
Proof.
  unfold Telegram.score_rules.
  destruct (Telegram.rsi_rule rsi _) as [[s1 l1] b1].
  destruct (macd_rule macd _) as [s2 l2].
  assert (E : snd (ema_rule price e9 e21 e50 (s2, l2, b1))
              = snd (ema_rule price e9 e21 e50 (0%Z, [], b1))).
  { unfold ema_rule.
    repeat (match goal with
            | |- context [if (?a =? ?b)%nat then _ else _] =>
                destruct (a =? b)%nat
            end); reflexivity. }
  cbn [snd]. rewrite <- E.
  destruct (ema_rule _ _ _ _ _) as [[s3 l3] b3].
  destruct (momentum_rule _ _) as [s4 l4].
  destruct (Telegram.funding_rule _ _) as [s5 l5].
  reflexivity.
Qed.

Lemma Professional_score_rules_bias
  h change24h price rsi macd bb e9 e21 e50 :
  snd (Professional.score_rules h change24h price rsi macd bb e9 e21 e50)
  = snd (ema_rule price e9 e21 e50
           (0%Z, [], snd (Professional.rsi_rule rsi (0%Z, [], NEUTRAL)))).
Proof.
  unfold Professional.score_rules.
  destruct (Professional.rsi_rule rsi _) as [[s1 l1] b1].
  destruct (macd_rule macd _) as [s2 l2].
  assert (E : snd (ema_rule price e9 e21 e50 (s2, l2, b1))
              = snd (ema_rule price e9 e21 e50 (0%Z, [], b1))).
  { unfold ema_rule.
    repeat (match goal with
            | |- context [if (?a =? ?b)%nat then _ else _] =>
                destruct (a =? b)%nat
            end); reflexivity. }
  cbn [snd]. rewrite <- E.
  destruct (ema_rule _ _ _ _ _) as [[s3 l3] b3].
  destruct (Professional.bollinger_rule _ _) as [s3' l3'].
  destruct (momentum_rule _ _) as [s4 l4].
  destruct (Professional.funding_rule _ _) as [s5 l5].
  reflexivity.
Qed.

End BiasFacts.

(** ** Sizing on finite inputs *)

Section SizingFacts.

Local Open Scope Qc_scope.

Lemma stop_distance_finite (atrPercent : number) :
  atrPercent <> PosInf ->
  exists d,
    (if (atrPercent >? lit 0)%js then (atrPercent * lit 1.5)%js else lit 5)
    = Num d /\ 0 < d.
Proof.
  intros H. destruct (stop_distance_cases atrPercent) as [Hd|Hinf];
    [exact Hd|].
  exfalso. destruct atrPercent as [a| | |]; try contradiction;
    unfold gt, lit in Hinf; cbn [lt mul] in Hinf.
  - destruct (Qc_ltb (Q2Qc 0) a); discriminate.
  - discriminate.
  - discriminate.
Qed.

Lemma hundredth_pos (d : Qc) : 0 < d -> 0 < d / Q2Qc 100.
Proof. intros H. apply Qcdiv_pos; [exact H | reflexivity]. Qed.

(** The position loses exactly the risk amount over the stop distance,
    and the leverage needed does not depend on the balance. *)
Lemma sizing_core (b rho d : Qc) :
  0 < d -> b <> 0 ->
  let ps := (Num b * Num rho / (Num d / lit 100))%js in
  (ps * (Num d / lit 100))%js = (Num b * Num rho)%js
  /\ (ps / Num b)%js = (Num rho / (Num d / lit 100))%js.
Proof.
  intros Hd Hb. cbv zeta. rewrite div_lit by discriminate.
  pose proof (Qclt_neq_0 _ (hundredth_pos d Hd)) as Hne.
  revert Hne. generalize (d / Q2Qc 100). intros e Hne.
  cbn [mul div].
  assert (E : Qc_eqb e 0 = false) by (apply Qc_eqb_neq, Hne).
  assert (Eb : Qc_eqb b 0 = false) by (apply Qc_eqb_neq, Hb).
  rewrite E. cbn [mul div]. rewrite Eb. split; f_equal; field; auto.
Qed.

(** When the leverage needed is above a finite cap, [Math.min] returns
    the cap, and the cap times a positive balance is below the
    position. *)
Lemma capped_leverage (b rho d M : Qc) :
  0 < d -> 0 < b ->
  (Num rho / (Num d / lit 100) >? Num M)%js = true ->
  let ps := (Num b * Num rho / (Num d / lit 100))%js in
  Math_min (ps / Num b)%js (Num M) = Num M
  /\ (Num M * Num b <? ps)%js = true.
Proof.
  intros Hd Hb Hgt. cbv zeta.
  destruct (sizing_core b rho d Hd (Qclt_neq_0 b Hb)) as [_ E].
  cbv zeta in E. rewrite E. clear E.
  revert Hgt. rewrite div_lit by discriminate.
  pose proof (Qclt_neq_0 _ (hundredth_pos d Hd)) as Hne.
  revert Hne. generalize (d / Q2Qc 100). intros e Hne.
  unfold gt. cbn [mul div].
  assert (E : Qc_eqb e 0 = false) by (apply Qc_eqb_neq, Hne).
  rewrite E. cbn [lt Math_min]. intros Hgt. rewrite Hgt.
  split; [reflexivity|].
  apply Qc_ltb_lt in Hgt. apply Qc_ltb_lt.
  replace (b * rho / e) with (b * (rho / e)) by (field; exact Hne).
  revert Hgt. generalize (rho / e). intros L HL.
  qc_to_q. nra.
Qed.

End SizingFacts.

(** ** The stop distance of an analysed asset *)

Section AnalysedStop.

Local Open Scope Qc_scope.

Lemma Telegram_analyzeAsset_atrPercent rnd asset h luziaData :
  let prices :=
    generateSimulatedHistory rnd (HyperData.markPx h)
                             (change24h_of luziaData h) in
  let a := Telegram.analyzeAsset rnd asset h luziaData in
  price a = HyperData.markPx h
  /\ atrPercent a
     = (calculateATR (map (fun p => p * lit 1.02) prices)
                     (map (fun p => p * lit 0.98) prices) prices
                     default_period
        / HyperData.markPx h * lit 100)%js.
Proof.
  cbv zeta. unfold Telegram.analyzeAsset.
  destruct (Telegram.score_rules _ _ _ _ _ _ _ _) as [[s l] b].
  split; reflexivity.
Qed.

Lemma Professional_analyzeAsset_atrPercent rnd asset h luziaData :
  let prices :=
    generateSimulatedHistory rnd (HyperData.markPx h)
                             (change24h_of luziaData h) in
  let a := Professional.analyzeAsset rnd asset h luziaData in
  price a = HyperData.markPx h
  /\ atrPercent a
     = (calculateATR (map (fun p => p * lit 1.02) prices)
                     (map (fun p => p * lit 0.98) prices) prices
                     default_period
        / HyperData.markPx h * lit 100)%js.
Proof.
  cbv zeta. unfold Professional.analyzeAsset.
  destruct (Professional.score_rules _ _ _ _ _ _ _ _ _) as [[s l] b].
  split; reflexivity.
Qed.

(** The ATR of a valid history over a positive price, in percent. *)
Lemma history_atr_percent_pos (rnd : nat -> number) (r : nat -> Qc)
  (cp ch : Qc) :
  0 < cp -> - Q2Qc 100 < ch ->
  (forall i, rnd i = Num (r i) /\ 0 <= r i /\ r i < 1) ->
  let prices := generateSimulatedHistory rnd (Num cp) (Num ch) in
  pos_finite
    (calculateATR (map (fun p => p * lit 1.02) prices)
                  (map (fun p => p * lit 0.98) prices) prices
                  default_period
     / Num cp * lit 100)%js.
Proof.
  intros Hcp Hch Hrnd. cbv zeta.
  destruct (history_positive rnd r cp ch Hcp Hch Hrnd)
    as [qs [-> [Hlen Hpos]]].
  destruct (calculateATR_spread_pos qs default_period) as [a [-> Ha]].
  - unfold default_period. lia.
  - rewrite Hlen. unfold default_period. lia.
  - exact Hpos.
  - cbn [div].
    assert (E : Qc_eqb cp 0 = false)
      by (apply Qc_eqb_neq, Qclt_neq_0, Hcp).
    rewrite E. unfold lit. cbn [mul].
    eexists. split; [reflexivity|].
    pose proof (Qcdiv_pos a cp Ha Hcp) as H.
    revert H. generalize (a / cp). intros x Hx. qc_to_q. lra.
Qed.

Lemma stop_distance_of_pos (x : number) :
  pos_finite x ->
  (if (x >? lit 0)%js then (x * lit 1.5)%js else lit 5) = (x * lit 1.5)%js.
Proof.
  intros [q [-> Hq]]. unfold gt, lit. cbn [lt].
  assert (E : Qc_ltb (Q2Qc 0) q = true) by (apply Qc_ltb_lt, Hq).
  rewrite E. reflexivity.
Qed.

End AnalysedStop.

(** ** The start of the history *)

Section HistoryStart.

Local Open Scope Qc_scope.

(** The momentum of an entry with a positive previous-day price. *)
Lemma hyperData_of_momentum (ctx : AssetCtx.t) (q m : Qc) :
  AssetCtx.prevDayPx ctx = Num q -> 0 < q ->
  AssetCtx.markPx ctx = Num m ->
  HyperData.markPx (hyperData_of ctx) = Num m
  /\ HyperData.momentum (hyperData_of ctx)
     = Num ((m - q) / q * Q2Qc 100).
Proof.
  intros Hq Hpos Hm. unfold hyperData_of.
  cbn [HyperData.markPx HyperData.momentum]. rewrite Hq, Hm.
  split; [reflexivity|].
  unfold gt, lit. cbn [lt].
  assert (E : Qc_ltb (Q2Qc 0) q = true) by (apply Qc_ltb_lt, Hpos).
  rewrite E. cbn [sub neg add div].
  assert (E0 : Qc_eqb q 0 = false)
    by (apply Qc_eqb_neq, Qclt_neq_0, Hpos).
  rewrite E0. reflexivity.
Qed.

(** Back-solving the start price from that momentum gives the
    previous-day price. *)
Lemma start_price_of_momentum (q m : Qc) :
  0 < q -> m <> 0 ->
  (Num m / (lit 1 + Num ((m - q) / q * Q2Qc 100) / lit 100))%js = Num q.
Proof.
  intros Hq Hm. pose proof (Qclt_neq_0 q Hq) as Hne.
  rewrite div_lit by discriminate. unfold lit. cbn [add div].
  assert (Ed : Q2Qc 1 + (m - q) / q * Q2Qc 100 / Q2Qc 100 = m / q).
  { field; repeat split;
      first [exact Hne | apply Qclt_neq_0; reflexivity]. }
  rewrite Ed.
  assert (Hmq : m / q <> 0).
  { intros E. apply Hm.
    replace m with (m / q * q) by (field; exact Hne).
    rewrite E. ring. }
  assert (E0 : Qc_eqb (m / q) 0 = false) by (apply Qc_eqb_neq, Hmq).
  rewrite E0. f_equal. field. split; assumption.
Qed.

End HistoryStart.

(** ** Drift without noise *)

Section NoiseFreeDrift.

Local Open Scope Qc_scope.

(** With a draw of 0.5 the noise term vanishes: the advance closes one
    sixtieth of the gap to the current price. *)
Lemma noise_free_advance (cp p : Qc) :
  0 < cp -> 0 < p ->
  advance_price (Num cp) (Num p) (lit 0.5) = Num (p + (cp - p) / Q2Qc 60)
  /\ 0 < p + (cp - p) / Q2Qc 60.
Proof.
  intros Hcp Hp.
  assert (Hr0 : 0 <= Q2Qc 0.5) by discriminate.
  assert (Hr1 : Q2Qc 0.5 < 1) by reflexivity.
  destruct (advance_price_no_floor cp p (Q2Qc 0.5) Hcp Hp Hr0 Hr1)
    as [E Hfl].
  unfold lit. rewrite E. split.
  - f_equal. qc_lra.
  - qc_to_q. lra.
Qed.

Lemma noise_free_prices (cp p0 : Qc) :
  0 < cp -> 0 < p0 ->
  forall k, exists p,
    price_after (fun _ => lit 0.5) (Num cp) (Num p0) k = Num p
    /\ 0 < p
    /\ cp - p = Q2Qc (59 # 60) ^ k * (cp - p0)
    /\ (p0 < cp -> p < cp).
Proof.
  intros Hcp Hp0.
  induction k as [|k [p [Ek [Hp [Hgap Hlt]]]]].
  - exists p0. cbn [price_after Qcpower].
    split; [reflexivity|]. split; [exact Hp0|]. split; [ring | auto].
  - destruct (noise_free_advance cp p Hcp Hp) as [E Hpos].
    exists (p + (cp - p) / Q2Qc 60).
    split; [cbn [price_after]; rewrite Ek; exact E|].
    split; [exact Hpos|]. split.
    + cbn [Qcpower]. rewrite <- Qcmult_assoc, <- Hgap. qc_lra.
    + intros H. specialize (Hlt H). qc_to_q. lra.
Qed.

Lemma start_below_current (cp ch : Qc) :
  0 < cp -> 0 < ch -> cp / (1 + ch / Q2Qc 100) < cp.
Proof.
  intros Hcp Hch.
  assert (Hd1 : 1 < 1 + ch / Q2Qc 100) by (qc_to_q; lra).
  revert Hd1. generalize (1 + ch / Q2Qc 100). intros d Hd1.
  assert (Hd : 0 < d) by (qc_to_q; lra).
  pose proof (Qcdiv_pos cp d Hcp Hd) as Hp.
  assert (E : cp / d * d = cp) by (field; apply Qclt_neq_0, Hd).
  revert Hp E. generalize (cp / d). intros p Hp E.
  rewrite <- E. qc_to_q. nra.
Qed.

End NoiseFreeDrift.

(** ** A flat series *)

Section FlatSeries.

Local Open Scope Qc_scope.

Lemma calculateMACD_flat (c : Qc) (n : nat) :
  (35 <= n)%nat ->
  calculateMACD (repeat (Num c) n)
  = MACD.mk (Num 0) (Num 0) (Some (Num 0)) false.
Proof.
  intros Hn.
  rewrite calculateMACD_long by (rewrite repeat_length; exact Hn).
  cbv zeta.
  rewrite !calculateEMA_constant by lia.
  unfold lit. cbn [toNumber sub neg add mul].
  replace (c + - c) with 0 by ring.
  replace (0 * Q2Qc 0.85) with 0 by ring.
  replace (0 + - 0) with 0 by ring.
  f_equal; try (unfold gt; apply lt_irrefl).
Qed.

Lemma above_count_flat (c : Qc) :
  above_count (Num c) (Some (Num c)) (Some (Num c)) (Some (Num c)) = 0%nat.
Proof.
  unfold above_count, gt. cbn [filter toNumber].
  rewrite lt_irrefl. reflexivity.
Qed.

Lemma non_decreasing_flat (x : number) (n : nat) :
  non_decreasing (repeat x n) = true.
Proof.
  induction n as [|n IH]; [reflexivity|].
  destruct n as [|n]; [reflexivity|].
  cbn [repeat non_decreasing] in *. rewrite lt_irrefl. exact IH.
Qed.

End FlatSeries.

(** * Properties of the indicators, the scoring and the sizing *)

Section IndicatorProperties.

Local Open Scope Qc_scope.

(** ** RSI *)



(** X2.  When no price is below the previous one (a flat series
    included), [calculateRSI] returns 100 for every lookback of at least 1
    that the series covers. *)
Theorem rsi_no_fall_is_100 (prices : list number) (period : nat) :
  (0 < period)%nat -> (period + 1 <= length prices)%nat ->
  non_decreasing prices = true ->
  calculateRSI prices period = lit 100.
Proof.
  intros Hp Hlen H. apply calculateRSI_no_loss; [exact Hp | exact Hlen |].
  apply losses_of_non_decreasing, H.
Qed.

Lemma rsi_no_fall_is_100_witness :
  calculateRSI (repeat (lit 7) 15) default_period = lit 100.
Proof.
  apply rsi_no_fall_is_100.
  - unfold default_period. lia.
  - rewrite repeat_length. unfold default_period. lia.
  - apply non_decreasing_flat.
Defined.



(** ** EMA *)



(** ** ATR *)





(** ** Bollinger bands *)



End IndicatorProperties.

Section ScoringProperties.

Local Open Scope Qc_scope.

(** ** Scoring *)

(** X8.  Whatever the indicator values, the v2.0 scoring rules give a
    score between -50 and 100 and the v1.0 rules a score between -60 and
    115; the same bounds hold for the score of every analysed asset. *)
Theorem score_range :
  (forall h change24h price rsi macd e9 e21 e50,
      (-50 <= fst (fst (Telegram.score_rules h change24h price rsi macd
                                             e9 e21 e50)) <= 100)%Z)
  /\ (forall h change24h price rsi macd bb e9 e21 e50,
      (-60 <= fst (fst (Professional.score_rules h change24h price rsi macd
                                                 bb e9 e21 e50)) <= 115)%Z)
  /\ (forall rnd asset h luziaData,
      (-50 <= score (Telegram.analyzeAsset rnd asset h luziaData) <= 100)%Z
      /\ (-60 <= score (Professional.analyzeAsset rnd asset h luziaData)
          <= 115)%Z).
Proof.
  split; [apply Telegram_score_rules_range|].
  split; [apply Professional_score_rules_range|].
  intros rnd asset h luziaData. split.
  - pose proof (Telegram_analyzeAsset_scores rnd asset h luziaData) as E.
    cbv zeta in E.
    replace (score (Telegram.analyzeAsset rnd asset h luziaData))
      with (fst (fst (score (Telegram.analyzeAsset rnd asset h luziaData),
                      signals (Telegram.analyzeAsset rnd asset h luziaData),
                      bias (Telegram.analyzeAsset rnd asset h luziaData))))
      by reflexivity.
    rewrite E. apply Telegram_score_rules_range.
  - pose proof (Professional_analyzeAsset_scores rnd asset h luziaData) as E.
    cbv zeta in E.
    replace (score (Professional.analyzeAsset rnd asset h luziaData))
      with (fst (fst
                   (score (Professional.analyzeAsset rnd asset h luziaData),
                    signals (Professional.analyzeAsset rnd asset h luziaData),
                    bias (Professional.analyzeAsset rnd asset h luziaData))))
      by reflexivity.
    rewrite E. apply Professional_score_rules_range.
Qed.

(** X9.  In both services the final bias is settled by the EMA
    alignment: BULLISH when the price is above at least two of the three
    EMAs, BEARISH when it is above none; the bias is NEUTRAL exactly when
    the price is above one EMA only and the RSI is neither below 45 nor
    above 55. *)
Theorem bias_from_ema_alignment :
  (forall h change24h price rsi macd e9 e21 e50,
      let n := above_count price e9 e21 e50 in
      let b := snd (Telegram.score_rules h change24h price rsi macd
                                         e9 e21 e50) in
      ((2 <= n)%nat -> b = BULLISH)
      /\ (n = 0%nat -> b = BEARISH)
      /\ (b = NEUTRAL
          <-> n = 1%nat /\ (rsi <? lit 45)%js = false
              /\ (rsi >? lit 55)%js = false))
  /\ (forall h change24h price rsi macd bb e9 e21 e50,
      let n := above_count price e9 e21 e50 in
      let b := snd (Professional.score_rules h change24h price rsi macd bb
                                             e9 e21 e50) in
      ((2 <= n)%nat -> b = BULLISH)
      /\ (n = 0%nat -> b = BEARISH)
      /\ (b = NEUTRAL
          <-> n = 1%nat /\ (rsi <? lit 45)%js = false
              /\ (rsi >? lit 55)%js = false)).
Proof.
  split.
  - intros h change24h price rsi macd e9 e21 e50. cbv zeta.
    rewrite Telegram_score_rules_bias.
    pose proof (Telegram_rsi_rule_neutral rsi 0%Z []) as Hn.
    destruct (ema_rule_bias price e9 e21 e50 0%Z []
                (snd (Telegram.rsi_rule rsi (0%Z, [], NEUTRAL))))
      as [H2 [H0 H1]].
    pose proof (above_count_le_3 price e9 e21 e50) as Hle.
    split; [exact H2|]. split; [exact H0|].
    destruct (above_count price e9 e21 e50) as [|[|n]].
    + rewrite (H0 eq_refl).
      split; [discriminate | intros [H _]; discriminate].
    + rewrite (H1 eq_refl), Hn. tauto.
    + rewrite (H2 ltac:(lia)).
      split; [discriminate | intros [H _]; discriminate].
  - intros h change24h price rsi macd bb e9 e21 e50. cbv zeta.
    rewrite Professional_score_rules_bias.
    pose proof (Professional_rsi_rule_neutral rsi 0%Z []) as Hn.
    destruct (ema_rule_bias price e9 e21 e50 0%Z []
                (snd (Professional.rsi_rule rsi (0%Z, [], NEUTRAL))))
      as [H2 [H0 H1]].
    pose proof (above_count_le_3 price e9 e21 e50) as Hle.
    split; [exact H2|]. split; [exact H0|].
    destruct (above_count price e9 e21 e50) as [|[|n]].
    + rewrite (H0 eq_refl).
      split; [discriminate | intros [H _]; discriminate].
    + rewrite (H1 eq_refl), Hn. tauto.
    + rewrite (H2 ltac:(lia)).
      split; [discriminate | intros [H _]; discriminate].
Qed.



(** ** The start of the history *)



End ScoringProperties.

(** ** Targets and stop of a plan *)

Section TargetFacts.

Local Open Scope Qc_scope.

(** Offsets of a target at [t] stop distances, for a finite entry price
    [p] and a finite stop distance [d] in percent. *)
Lemma target_up_stop_down (p d t : Qc) :
  (Num p * (lit 1 + Num d / lit 100 * Num t) - Num p)%js
  = (Num t * (Num p - Num p * (lit 1 - Num d / lit 100)))%js.
Proof.
  rewrite div_lit by discriminate. unfold lit.
  cbn [add sub neg mul]. apply f_equal. ring.
Qed.

Lemma target_down_stop_up (p d t : Qc) :
  (Num p * (lit 1 - Num d / lit 100 * Num t) - Num p)%js
  = (Num t * (Num p - Num p * (lit 1 + Num d / lit 100)))%js.
Proof.
  rewrite div_lit by discriminate. unfold lit.
  cbn [add sub neg mul]. apply f_equal. ring.
Qed.

Lemma target_up_stop_up (p d t : Qc) :
  (Num p * (lit 1 + Num d / lit 100 * Num t) - Num p)%js
  = (Num t * (Num p * (lit 1 + Num d / lit 100) - Num p))%js.
Proof.
  rewrite div_lit by discriminate. unfold lit.
  cbn [add sub neg mul]. apply f_equal. ring.
Qed.

Lemma Bias_eqb_neq (a b : Bias) : a <> b -> Bias_eqb a b = false.
Proof. destruct a, b; intros H; try reflexivity; contradiction. Qed.

End TargetFacts.

Section SizingProperties.

Local Open Scope Qc_scope.

(** ** Sizing *)









End SizingProperties.

Section HistoryProperties.

Local Open Scope Qc_scope.

(** ** The simulated history *)





End HistoryProperties.
